(** * plan-change-capturer: the transport command

    A shallow embedding of [cmd/transport.go] and of the helpers of the
    [cmd] package (database enumeration, artifact paths, directory parse),
    followed by the properties of the snapshot transport pipeline.

    Go strings are byte sequences and are modelled by [string]; Go maps
    used as sets are [gset string], the other maps are [gmap]; a Go
    [error] is its message.  Everything outside the process (SQL server,
    diagnostic HTTP endpoint, operating system) is a record of oracles. *)

From Stdlib Require Import String Ascii.
From stdpp Require Import base gmap strings list pretty.

Local Open Scope string_scope.

(** ** The [strings] package, as far as the command uses it *)

Module GoStrings.

Definition is_upper (c : ascii) : bool :=
  let n := nat_of_ascii c in (65 <=? n)%nat && (n <=? 90)%nat.

(** ['A' <= c && c <= 'Z'] then [c += 'a' - 'A'], the path that
    [strings.ToLower] takes on text of ASCII bytes.  Bytes above 127 are
    left as they are: the folding of other letters is not modelled. *)
Definition lower_byte (c : ascii) : ascii :=
  if is_upper c then ascii_of_nat (nat_of_ascii c + 32) else c.

Fixpoint ToLower (s : string) : string :=
  match s with
  | EmptyString => EmptyString
  | String c s' => String (lower_byte c) (ToLower s')
  end.

Fixpoint HasPrefix (s prefix : string) : bool :=
  match prefix, s with
  | EmptyString, _ => true
  | String p prefix', String c s' => Ascii.eqb c p && HasPrefix s' prefix'
  | String _ _, EmptyString => false
  end.

(** The slice expression [s[i:j]] for [i <= j <= len(s)]. *)
Definition slice (s : string) (i j : nat) : string := substring i (j - i) s.

(** [len(s) >= len(suffix) && s[len(s)-len(suffix):] == suffix] *)
Definition HasSuffix (s suffix : string) : bool :=
  (String.length suffix <=? String.length s)%nat &&
  String.eqb (slice s (String.length s - String.length suffix) (String.length s)) suffix.

(** [strings.Split(s, sep)] for a separator of one byte, the only use in
    the package.  [Split("", sep)] is the one-element list [[""]]. *)
Fixpoint Split (s : string) (sep : ascii) : list string :=
  match s with
  | EmptyString => [EmptyString]
  | String c s' =>
      if Ascii.eqb c sep then EmptyString :: Split s' sep
      else match Split s' sep with
           | f :: fs => String c f :: fs
           | [] => [String c EmptyString]
           end
  end.

Fixpoint trim_left (s : string) : string :=
  match s with
  | String c s' => if Ascii.is_space c then trim_left s' else s
  | EmptyString => EmptyString
  end.

(** ASCII white space on both ends: [strings.TrimSpace] on text of ASCII
    bytes.  The white space beyond ASCII that it also trims is not
    modelled. *)
Definition TrimSpace (s : string) : string :=
  String.rev (trim_left (String.rev (trim_left s))).

(** [strings.ReplaceAll(s, old, new)] for one-byte [old] and [new]. *)
Fixpoint ReplaceAll (s : string) (old new : ascii) : string :=
  match s with
  | EmptyString => EmptyString
  | String c s' => String (if Ascii.eqb c old then new else c) (ReplaceAll s' old new)
  end.

Fixpoint has_byte (c : ascii) (s : string) : bool :=
  match s with
  | EmptyString => false
  | String d s' => Ascii.eqb d c || has_byte c s'
  end.

Fixpoint join (sep : string) (l : list string) : string :=
  match l with
  | [] => ""
  | [x] => x
  | x :: l' => x +:+ sep +:+ join sep l'
  end.

End GoStrings.

(** ** The [path] package: [Base], [Clean], [Join]

    On the platforms the tool runs on [path/filepath] agrees with [path],
    so [filepath.Join] is [GoPath.Join]. *)

Module GoPath.
Import GoStrings.

Fixpoint strip_trailing_slashes (s : string) : string :=
  match s with
  | EmptyString => EmptyString
  | String c s' =>
      match strip_trailing_slashes s' with
      | EmptyString => if Ascii.eqb c "/" then EmptyString else String c EmptyString
      | r => String c r
      end
  end.

Definition Base (path : string) : string :=
  if String.eqb path "" then "."
  else
    let path := strip_trailing_slashes path in
    let path := List.last (Split path "/") "" in
    if String.eqb path "" then "/" else path.

(** One path element met by [Clean]; [stack] holds the elements kept so
    far, the latest first. *)
Definition clean_step (rooted : bool) (stack : list string) (c : string) : list string :=
  if String.eqb c "" || String.eqb c "." then stack
  else if String.eqb c ".." then
    match stack with
    | top :: rest => if String.eqb top ".." then c :: stack else rest
    | [] => if rooted then [] else [c]
    end
  else c :: stack.

(** The shortest path equivalent to [path] by lexical processing:
    repeated slashes and [.] elements dropped, inner [..] elements
    cancelled against the element before them, [..] at the start of a
    rooted path dropped; the empty result is [.]. *)
Definition Clean (path : string) : string :=
  if String.eqb path "" then "."
  else
    let rooted := HasPrefix path "/" in
    let kept := rev (fold_left (clean_step rooted) (Split path "/") []) in
    let out := (if rooted then "/" else "") +:+ join "/" kept in
    if String.eqb out "" then "." else out.

Fixpoint join_buf (buf : string) (elem : list string) : string :=
  match elem with
  | [] => buf
  | e :: elem' =>
      if (0 <? String.length buf)%nat || negb (String.eqb e "") then
        join_buf ((if (0 <? String.length buf)%nat then buf +:+ "/" else buf) +:+ e) elem'
      else join_buf buf elem'
  end.

Definition Join (elem : list string) : string :=
  if forallb (fun e => String.eqb e "") elem then ""
  else Clean (join_buf "" elem).

End GoPath.

Import GoStrings.

(** ** Errors, the world outside the process, and the state of a run *)

(** A Go [(T, error)] result; [Err msg] carries [err.Error()]. *)
Inductive result (A : Type) : Type :=
| Ok (a : A)
| Err (msg : string).
Arguments Ok {A} a.
Arguments Err {A} msg.

(** What a file holds.  [DDL m] stands for the JSON text of the map [m],
    which [json.MarshalIndent] writes and [json.Unmarshal] reads back as
    it is when names and statements are valid UTF-8; [Bytes b] is text
    that is no JSON object of strings. *)
Inductive content : Type :=
| Bytes (b : string)
| DDL (m : gmap string string).

(** [*sql.Rows]: the rows still to be read, each a list of columns, and
    what [Close] returns. *)
Record sqlRows : Type := {
  rowsData : list (list string);
  rowsCloseErr : option string
}.

(** [*sql.DB] after [sql.Open]: the server's answers.  A query is answered
    for the database the session is switched to. *)
Record sqlDB : Type := {
  dbPing : option string;
  dbExec : string → option string;
  dbQuery : string → string → result sqlRows
}.

(** [*http.Response] *)
Record httpResponse : Type := {
  StatusCode : nat;
  Body : string;
  BodyReadErr : option string
}.

Record environment : Type := {
  sqlOpen : string → result sqlDB;
  httpGet : string → result httpResponse;
  osMkdirAll : string → option string;
  osOpenFileErr : string → option string;
  osWriteErr : string → option string;
  osCloseErr : string → option string;
  filepathGlob : string → result (list string);
  osTempDir : string;
  timeNowRFC3339 : string
}.

(** What the process does to the outside. *)
Inductive event : Type :=
| EvExec (sql : string)
| EvQuery (sql : string)
| EvGet (url : string)
| EvRegisterLocalFile (fpath : string).

Record state : Type := {
  fs : gmap string content;      (* the files *)
  stdout : list string;          (* printed lines, oldest first *)
  trace : list event;            (* oldest first *)
  session : string               (* database the connection in use is switched to *)
}.

(** A Go function that may return an error and acts on the outside. *)
Definition M (A : Type) : Type := state → result A * state.

Definition ret {A} (a : A) : M A := λ st, (Ok a, st).
Definition fail {A} (msg : string) : M A := λ st, (Err msg, st).
Definition bind {A B} (m : M A) (k : A → M B) : M B :=
  λ st, match m st with
        | (Ok a, st') => k a st'
        | (Err msg, st') => (Err msg, st')
        end.

Declare Scope go_scope.
Delimit Scope go_scope with go.
Notation "x <- m ;; k" := (bind m (λ x, k))
  (at level 100, m at next level, k at level 200, right associativity) : go_scope.
Notation "m ;; k" := (bind m (λ _, k))
  (at level 100, k at level 200, right associativity) : go_scope.
Local Open Scope go_scope.

(** [if err != nil { return fmt.Errorf(..., err) }] *)
Definition wrapErr {A} (f : string → string) (m : M A) : M A :=
  λ st, match m st with
        | (Ok a, st') => (Ok a, st')
        | (Err msg, st') => (Err (f msg), st')
        end.

Definition liftErr (o : option string) : M unit :=
  match o with
  | None => ret tt
  | Some msg => fail msg
  end.

Definition liftResult {A} (r : result A) : M A :=
  match r with
  | Ok a => ret a
  | Err msg => fail msg
  end.

Definition emit (ev : event) : M unit :=
  λ st, (Ok tt, {| fs := fs st; stdout := stdout st;
                   trace := trace st ++ [ev]; session := session st |}).

(** [fmt.Println] and [fmt.Printf] of one line. *)
Definition Println (line : string) : M unit :=
  λ st, (Ok tt, {| fs := fs st; stdout := stdout st ++ [line];
                   trace := trace st; session := session st |}).

Definition setSession (db : string) : M unit :=
  λ st, (Ok tt, {| fs := fs st; stdout := stdout st;
                   trace := trace st; session := db |}).

Definition putFile (path : string) (c : content) : M unit :=
  λ st, (Ok tt, {| fs := <[path := c]> (fs st); stdout := stdout st;
                   trace := trace st; session := session st |}).

(** ** [database/sql], [os], [io/ioutil], [encoding/json], [net/http] *)

(** [db.Exec(sql)].  The statement [use d] switches the session. *)
Definition Exec (db : sqlDB) (sql : string) : M unit :=
  emit (EvExec sql) ;;
  liftErr (dbExec db sql) ;;
  if HasPrefix sql "use " then setSession (slice sql 4 (String.length sql)) else ret tt.

Definition Query (db : sqlDB) (sql : string) : M sqlRows :=
  emit (EvQuery sql) ;;
  λ st, liftResult (dbQuery db (session st) sql) st.

(** [os.OpenFile(path, O_CREATE|O_WRONLY|O_TRUNC, 0666)] *)
Definition OpenFile (e : environment) (path : string) : M unit :=
  liftErr (osOpenFileErr e path) ;;
  putFile path (Bytes "").

(** [file.Write(data)]; a failed write leaves the file as it was opened. *)
Definition Write (e : environment) (path : string) (data : content) : M unit :=
  liftErr (osWriteErr e path) ;;
  putFile path data.

Definition Close (e : environment) (path : string) : M unit :=
  liftErr (osCloseErr e path).

Definition ReadFile (path : string) : M content :=
  λ st, match fs st !! path with
        | Some c => (Ok c, st)
        | None => (Err ("open " +:+ path +:+ ": no such file or directory"), st)
        end.

Definition MarshalIndent (m : gmap string string) : result content := Ok (DDL m).

Definition Unmarshal (c : content) : result (gmap string string) :=
  match c with
  | DDL m => Ok m
  | Bytes _ => Err "json: cannot unmarshal into Go value of type map[string]string"
  end.

Definition httpGET (e : environment) (url : string) : M httpResponse :=
  emit (EvGet url) ;;
  liftResult (httpGet e url).

(** [rows.Scan(&a)] and [rows.Scan(&a, &b)] on the row [rows.Next] moved
    to ([None] when it found no row and closed the rows): the scan fails
    unless the row has as many columns as there are destinations. *)
Definition Scan1 (row : option (list string)) : result string :=
  match row with
  | None => Err "sql: Rows are closed"
  | Some [c] => Ok c
  | Some cols => Err ("sql: expected " +:+ pretty (length cols) +:+
                      " destination arguments in Scan, not 1")
  end.

Definition Scan2 (row : option (list string)) : result (string * string) :=
  match row with
  | None => Err "sql: Rows are closed"
  | Some [c1; c2] => Ok (c1, c2)
  | Some cols => Err ("sql: expected " +:+ pretty (length cols) +:+
                      " destination arguments in Scan, not 2")
  end.

(** ** [cmd/transport.go] *)

Record tidbAccessOptions : Type := {
  addr : string;
  statusPort : string;
  port : string;
  user : string;
  password : string;
  version : string
}.

Record tidbHandler : Type := {
  h_opt : tidbAccessOptions;
  h_db : sqlDB
}.

Record transportOptions : Type := {
  o_src : tidbAccessOptions;
  o_dst : tidbAccessOptions;
  o_dir : string;
  o_dbs : list string;
  o_tables : list string;
  o_ignoreTables : list string
}.

Definition newDBHandler (e : environment) (opt : tidbAccessOptions) (defaultDB : string)
    : M tidbHandler :=
  let defaultDB := TrimSpace (ToLower defaultDB) in
  let defaultDB := if String.eqb defaultDB "" then "mysql" else defaultDB in
  let dns :=
    if String.eqb (password opt) "" then
      user opt +:+ "@tcp(" +:+ addr opt +:+ ":" +:+ port opt +:+ ")/" +:+ defaultDB
    else
      user opt +:+ ":" +:+ password opt +:+ "@tcp(" +:+ addr opt +:+ ":" +:+ port opt
        +:+ ")/" +:+ defaultDB in
  db <- wrapErr (λ err, "connect to database dns:" +:+ dns +:+ ", error: " +:+ err)
          (liftResult (sqlOpen e dns)) ;;
  wrapErr (λ err, "ping DB " +:+ dns +:+ " error: " +:+ err) (liftErr (dbPing db)) ;;
  setSession defaultDB ;;
  ret {| h_opt := opt; h_db := db |}.

(** The loop [for rows.Next() { rows.Scan(&table) ... }] of [getTables]. *)
Fixpoint scanTables (rows : list (list string)) (tables : list string) : result (list string) :=
  match rows with
  | [] => Ok tables
  | row :: rows' =>
      match Scan1 (Some row) with
      | Err err => Err ("scan rows error: " +:+ err)
      | Ok table => scanTables rows' (tables ++ [table])
      end
  end.

Definition getTables (h : tidbHandler) (db : string) : M (list string) :=
  wrapErr (λ err, "switch to DB: " +:+ db +:+ " error: " +:+ err)
    (Exec (h_db h) ("use " +:+ db)) ;;
  rows <- wrapErr (λ err, "execute show tables error: " +:+ err)
            (Query (h_db h) "show tables") ;;
  liftResult (scanTables (rowsData rows) []).

(** The loop over [tables] in [exportDBSchemas]; [tableSchemas] is the
    map filled so far.  The result of [rows.Next()] is dropped, and a
    failed scan closes the rows before it returns. *)
Fixpoint exportDBSchemasLoop (h : tidbHandler) (db : string)
    (tablesMap ignoreTables : gset string) (tables : list string)
    (tableSchemas : gmap string string) : M (gmap string string) :=
  match tables with
  | [] => ret tableSchemas
  | t :: tables' =>
      if bool_decide (ToLower t ∈ ignoreTables) then
        Println ("ignore table: " +:+ t) ;;
        exportDBSchemasLoop h db tablesMap ignoreTables tables' tableSchemas
      else if (0 <? size tablesMap)%nat && negb (bool_decide (ToLower t ∈ tablesMap)) then
        exportDBSchemasLoop h db tablesMap ignoreTables tables' tableSchemas
      else
        let showSQL := "show create table `" +:+ db +:+ "`.`" +:+ t +:+ "`" in
        rows <- wrapErr (λ err, "exec SQL: " +:+ showSQL +:+ " error: " +:+ err)
                  (Query (h_db h) showSQL) ;;
        match Scan2 (head (rowsData rows)) with
        | Err err => fail ("scan rows error: " +:+ err)
        | Ok (table, createSQL) =>
            liftErr (rowsCloseErr rows) ;;
            exportDBSchemasLoop h db tablesMap ignoreTables tables'
              (<[table := createSQL]> tableSchemas)
        end
  end.

Definition exportDBSchemas (e : environment) (h : tidbHandler) (db dir : string)
    (tablesMap ignoreTables : gset string) : M unit :=
  tables <- wrapErr (λ err, "get DB: " +:+ db +:+ " table information error: " +:+ err)
              (getTables h db) ;;
  let path := GoPath.Join [dir; "schema-" +:+ db +:+ ".sql"] in
  tableSchemas <- exportDBSchemasLoop h db tablesMap ignoreTables tables ∅ ;;
  OpenFile e path ;;
  jsonData <- liftResult (MarshalIndent tableSchemas) ;;
  Write e path jsonData ;;
  Close e path ;;
  Println ("export " +:+ addr (h_opt h) +:+ ":" +:+ port (h_opt h) +:+ "/" +:+ db
           +:+ " schemas into " +:+ path).

Fixpoint exportSchemas (e : environment) (h : tidbHandler) (dbs : list string) (dir : string)
    (tablesMap ignoreTables : gset string) : M unit :=
  match dbs with
  | [] => ret tt
  | db :: dbs' =>
      wrapErr (λ err, "export DB: " +:+ db +:+ " schemas to " +:+ dir +:+ " error: " +:+ err)
        (exportDBSchemas e h db dir tablesMap ignoreTables) ;;
      exportSchemas e h dbs' dir tablesMap ignoreTables
  end.

(** The deferred [file.Close()] drops its result.  The copy goes through
    a buffered writer, and the body is taken to fit its buffer: the bytes
    reach the file at [buf.Flush()], and a body whose read fails leaves
    the file as it was opened. *)
Definition exportTableStats (e : environment) (h : tidbHandler) (db table dir : string)
    : M unit :=
  let url := "http://" +:+ addr (h_opt h) +:+ ":" +:+ statusPort (h_opt h)
             +:+ "/stats/dump/" +:+ db +:+ "/" +:+ table in
  resp <- wrapErr (λ err, "request URL: " +:+ url +:+ " error: " +:+ err) (httpGET e url) ;;
  let path := GoPath.Join [dir; "stats-" +:+ db +:+ "-" +:+ table +:+ ".json"] in
  OpenFile e path ;;
  liftErr (BodyReadErr resp) ;;            (* io.Copy(buf, resp.Body) *)
  Write e path (Bytes (Body resp)) ;;      (* buf.Flush() *)
  Println ("export " +:+ addr (h_opt h) +:+ ":" +:+ port (h_opt h) +:+ "/" +:+ db +:+ "."
           +:+ table +:+ " stats into " +:+ path).

(** The loop over the tables of one database in [exportStats]. *)
Fixpoint exportStatsTables (e : environment) (h : tidbHandler) (db dir : string)
    (tablesMap ignoreTables : gset string) (tables : list string) : M unit :=
  match tables with
  | [] => ret tt
  | t :: tables' =>
      if bool_decide (ToLower t ∈ ignoreTables) then
        Println ("ignore table: " +:+ t) ;;
        exportStatsTables e h db dir tablesMap ignoreTables tables'
      else if (0 <? size tablesMap)%nat && negb (bool_decide (ToLower t ∈ tablesMap)) then
        exportStatsTables e h db dir tablesMap ignoreTables tables'
      else
        wrapErr (λ err, "export DB: " +:+ db +:+ " table: " +:+ t +:+ " statistics to "
                        +:+ dir +:+ " error: " +:+ err)
          (exportTableStats e h db t dir) ;;
        exportStatsTables e h db dir tablesMap ignoreTables tables'
  end.

Fixpoint exportStats (e : environment) (h : tidbHandler) (dbs : list string) (dir : string)
    (tablesMap ignoreTables : gset string) : M unit :=
  match dbs with
  | [] => ret tt
  | db :: dbs' =>
      tables <- wrapErr (λ err, "get DB: " +:+ db +:+ " table information error: " +:+ err)
                  (getTables h db) ;;
      exportStatsTables e h db dir tablesMap ignoreTables tables ;;
      exportStats e h dbs' dir tablesMap ignoreTables
  end.

(** The loop [for _, sql := range tableSchemas] of [importSchemas], over
    the statements in the order the map is ranged over. *)
Fixpoint importStatements (h : tidbHandler) (path : string) (sqls : list string) : M unit :=
  match sqls with
  | [] => ret tt
  | sql :: sqls' =>
      let sql := TrimSpace sql in
      wrapErr (λ err, "execute SQL: " +:+ sql +:+ " from " +:+ path +:+ " error: " +:+ err)
        (Exec (h_db h) sql) ;;
      importStatements h path sqls'
  end.

(** Go ranges over a map in an unspecified order; the embedding takes the
    order of [map_to_list]. *)
Fixpoint importSchemas (h : tidbHandler) (dbs : list string) (dir : string) : M unit :=
  match dbs with
  | [] => ret tt
  | db :: dbs' =>
      wrapErr (λ err, "create DB: " +:+ db +:+ " error: " +:+ err)
        (Exec (h_db h) ("create database if not exists `" +:+ db +:+ "`")) ;;
      wrapErr (λ err, "switch to DB: " +:+ db +:+ " error: " +:+ err)
        (Exec (h_db h) ("use " +:+ db)) ;;
      let path := GoPath.Join [dir; "schema-" +:+ db +:+ ".sql"] in
      content <- wrapErr (λ err, "read file " +:+ path +:+ " err: " +:+ err) (ReadFile path) ;;
      tableSchemas <- wrapErr (λ err, "unmarshal file " +:+ path +:+ " err: " +:+ err)
                        (liftResult (Unmarshal content)) ;;
      importStatements h path (snd <$> map_to_list tableSchemas) ;;
      Println ("import schemas from " +:+ path +:+ " into " +:+ addr (h_opt h) +:+ ":"
               +:+ port (h_opt h) +:+ "/" +:+ db) ;;
      importSchemas h dbs' dir
  end.

(** The loop over the files matched for one database in [importStats]. *)
Fixpoint importStatsFiles (h : tidbHandler) (db : string) (files : list string) : M unit :=
  match files with
  | [] => ret tt
  | fpath :: files' =>
      emit (EvRegisterLocalFile fpath) ;;
      Exec (h_db h) ("load stats '" +:+ fpath +:+ "'") ;;
      Println ("import stats from " +:+ fpath +:+ " into " +:+ addr (h_opt h) +:+ ":"
               +:+ port (h_opt h) +:+ "/" +:+ db) ;;
      importStatsFiles h db files'
  end.

Fixpoint importStats (e : environment) (h : tidbHandler) (dbs : list string) (dir : string)
    : M unit :=
  match dbs with
  | [] => ret tt
  | db :: dbs' =>
      files <- liftResult
                 (filepathGlob e (GoPath.Join [dir; "stats-" +:+ db +:+ "-*[.]json"])) ;;
      importStatsFiles h db files ;;
      importStats e h dbs' dir
  end.

Definition tmpPathDir (e : environment) : string :=
  let t := timeNowRFC3339 e in
  let t := ReplaceAll t ":" "-" in
  GoPath.Join [osTempDir e; "plan-change-capturer"; t].

(** [for _, str := range strs { m[str] = struct{}{} }] *)
Definition stringSliceToMap (strs : list string) : gset string :=
  fold_left (λ m str, {[str]} ∪ m) strs ∅.

(** The export half of [RunE]: the body of [if opt.src.addr != ""]. *)
Definition runExport (e : environment) (opt : transportOptions) (dir : string) : M unit :=
  Println "begin to export schemas and statistics information from source databases" ;;
  src <- wrapErr (λ err, "create source DB handler error: " +:+ err)
           (newDBHandler e (o_src opt) "") ;;
  let tablesMap := stringSliceToMap (o_tables opt) in
  let ignoreTablesMap := stringSliceToMap (o_ignoreTables opt) in
  wrapErr (λ err, "export schemas error: " +:+ err)
    (exportSchemas e src (o_dbs opt) dir tablesMap ignoreTablesMap) ;;
  wrapErr (λ err, "export statistics information error: " +:+ err)
    (exportStats e src (o_dbs opt) dir tablesMap ignoreTablesMap) ;;
  Println "export schemas and statistics information from source databases successfully".

(** The import half of [RunE]: the body of [if opt.dst.addr != ""]. *)
Definition runImport (e : environment) (opt : transportOptions) (dir : string) : M unit :=
  Println "begin to import schemas and statistics information into destination databases" ;;
  dst <- wrapErr (λ err, "create destination DB handler error: " +:+ err)
           (newDBHandler e (o_dst opt) "") ;;
  wrapErr (λ err, "import schemas error: " +:+ err)
    (importSchemas dst (o_dbs opt) dir) ;;
  wrapErr (λ err, "import statistics information error: " +:+ err)
    (importStats e dst (o_dbs opt) dir) ;;
  Println "import schemas and statistics information into destination databases successfully".

(** The [RunE] function of [newTransportCmd]. *)
Definition RunE (e : environment) (opt : transportOptions) : M unit :=
  let dir := if String.eqb (o_dir opt) "" then tmpPathDir e else o_dir opt in
  wrapErr (λ err, "create destination directory error: " +:+ err)
    (liftErr (osMkdirAll e dir)) ;;
  (if negb (String.eqb (addr (o_src opt)) "") then runExport e opt dir else ret tt) ;;
  (if negb (String.eqb (addr (o_dst opt)) "") then runImport e opt dir else ret tt).

(** ** The helpers of the [cmd] package *)

Definition sysDBs : list string :=
  ["INFORMATION_SCHEMA"; "METRICS_SCHEMA"; "PERFORMANCE_SCHEMA"; "mysql"].

Fixpoint isSysDBLoop (db : string) (sysDBs : list string) : bool :=
  match sysDBs with
  | [] => false
  | sysDB :: sysDBs' =>
      if String.eqb (ToLower db) (ToLower sysDB) then true else isSysDBLoop db sysDBs'
  end.

Definition isSysDB (db : string) : bool := isSysDBLoop db sysDBs.

(** The loop [for rows.Next() { ... }] of [getDBs]. *)
Fixpoint scanDBs (rows : list (list string)) (dbs : list string) : result (list string) :=
  match rows with
  | [] => Ok dbs
  | row :: rows' =>
      match Scan1 (Some row) with
      | Err err => Err ("scan rows err: " +:+ err)
      | Ok dbName => scanDBs rows' (if negb (isSysDB dbName) then dbs ++ [dbName] else dbs)
      end
  end.

Definition getDBs (h : tidbHandler) : M (list string) :=
  rows <- wrapErr (λ err, "execute show databases error: " +:+ err)
            (Query (h_db h) "show databases") ;;
  liftResult (scanDBs (rowsData rows) []).

Definition schemaPath (db table dir : string) : string :=
  GoPath.Join [dir; "schema-" +:+ db +:+ "-" +:+ table +:+ ".sql"].

Definition statsPath (db table dir : string) : string :=
  GoPath.Join [dir; "stats-" +:+ db +:+ "-" +:+ table +:+ ".json"].

(** The function [parseDBTables] hands to [filepath.Walk]; [isDir] is
    [info.IsDir()].  It never returns an error. *)
Definition walkFn (dbTables : gmap string (list string)) (entry : string * bool)
    : gmap string (list string) :=
  let '(fpath, isDir) := entry in
  if isDir then dbTables
  else
    let fname := GoPath.Base fpath in
    let fields : list string := [] in
    let fields :=
      if HasPrefix fname "schema-" && HasSuffix fname ".sql" then
        Split (slice fname (String.length "schema-")
                 (String.length fname - String.length ".sql")) "-"
      else fields in
    let fields :=
      if HasPrefix fname "stats-" && HasSuffix fname ".json" then
        Split (slice fname (String.length "stats-")
                 (String.length fname - String.length ".json")) "-"
      else fields in
    match fields with
    | [f0; f1] => <[f0 := ((dbTables !!! f0) ++ [f1])%list]> dbTables
    | _ => dbTables
    end.

(** [parseDBTables(dir)], given the files and directories that
    [filepath.Walk(dir, ...)] visits, in its order. *)
Definition parseDBTables (walk : list (string * bool))
    : gmap string (list string) * option string :=
  (fold_left walkFn walk ∅, None).

(** [compareVer]: Go orders strings byte by byte. *)
Definition compareVer (ver1 ver2 : string) : Z :=
  if String.ltb ver1 ver2 then (-1)%Z
  else if String.eqb ver1 ver2 then 0%Z
  else 1%Z.

(** The method [execute(sqls ...string)]. *)
Fixpoint execute (h : tidbHandler) (sqls : list string) : M unit :=
  match sqls with
  | [] => ret tt
  | sql :: sqls' =>
      wrapErr (λ err, "execute `" +:+ sql +:+ "` error: " +:+ err) (Exec (h_db h) sql) ;;
      execute h sqls'
  end.

(** The handler of the helpers, which also holds the process of the
    instance it was started with ([nil] when it only connected). *)
Record tidbProcHandler : Type := {
  hp_opt : tidbAccessOptions;
  hp_db : sqlDB;
  hp_p : option nat
}.

Definition connectDB (e : environment) (opt : tidbAccessOptions) (defaultDB : string)
    : M tidbProcHandler :=
  let defaultDB := TrimSpace (ToLower defaultDB) in
  let defaultDB := if String.eqb defaultDB "" then "mysql" else defaultDB in
  let dns :=
    if String.eqb (password opt) "" then
      user opt +:+ "@tcp(" +:+ addr opt +:+ ":" +:+ port opt +:+ ")/" +:+ defaultDB
    else
      user opt +:+ ":" +:+ password opt +:+ "@tcp(" +:+ addr opt +:+ ":" +:+ port opt
        +:+ ")/" +:+ defaultDB in
  db <- wrapErr (λ err, "connect to database dns:" +:+ dns +:+ ", error: " +:+ err)
          (liftResult (sqlOpen e dns)) ;;
  wrapErr (λ err, "ping DB " +:+ dns +:+ " error: " +:+ err) (liftErr (dbPing db)) ;;
  setSession defaultDB ;;
  ret {| hp_opt := opt; hp_db := db; hp_p := None |}.

(** The state of a run together with the instances it has started, the
    latest last; a process is named by a number. *)
Record istate : Type := {
  base : state;
  running : list nat
}.

(** [startAndConnectDB]; [startTiDB] stands for [instance.StartTiDB],
    which gives the process, the port and the status port. *)
Definition startAndConnectDB (startTiDB : string → nat * nat * nat) (e : environment)
    (opt : tidbAccessOptions) (defaultDB : string) (ist : istate)
    : result tidbProcHandler * istate :=
  if String.eqb (version opt) "" then (Err "no TiDB version", ist)
  else
    let '(p, port, status) := startTiDB (version opt) in
    let opt := {| addr := "127.0.0.1"; statusPort := pretty status; port := pretty port;
                  user := "root"; password := ""; version := version opt |} in
    let ist := {| base := base ist; running := (running ist ++ [p])%list |} in
    match connectDB e opt defaultDB (base ist) with
    | (Err err, st) => (Err err, {| base := st; running := running ist |})
    | (Ok db, st) =>
        (Ok {| hp_opt := hp_opt db; hp_db := hp_db db; hp_p := Some p |},
         {| base := st; running := running ist |})
    end.


(** ** Vocabulary of the specification *)

(** Two bytes that are the same letter up to case: equal, or one is an
    upper-case ASCII letter and the other its lower-case form. *)
Definition same_letter (c d : ascii) : Prop :=
  c = d ∨
  (is_upper c = true ∧ nat_of_ascii d = nat_of_ascii c + 32) ∨
  (is_upper d = true ∧ nat_of_ascii c = nat_of_ascii d + 32).

(** Case-insensitive equality of identifiers. *)
Inductive CaseEq : string → string → Prop :=
| CaseEq_nil : CaseEq "" ""
| CaseEq_cons c d s t : same_letter c d → CaseEq s t → CaseEq (String c s) (String d t).

(** The filter-set invariant of the data model, on the case-folded table
    name: with a non-empty include list a table passes when it is in the
    include list and not in the exclude list; with an empty include list
    it passes unless it is in the exclude list. *)
Definition passes (include exclude : list string) (t : string) : bool :=
  match include with
  | [] => negb (bool_decide (ToLower t ∈ exclude))
  | _ :: _ => bool_decide (ToLower t ∈ include) && negb (bool_decide (ToLower t ∈ exclude))
  end.

(** A file name of the naming convention for the pair [(db, table)]: a
    recognized prefix, the matching suffix, and between them two fields
    separated by the reserved [-]. *)
Definition artifactName (fname db table : string) : Prop :=
  (fname = "schema-" +:+ db +:+ "-" +:+ table +:+ ".sql" ∨
   fname = "stats-" +:+ db +:+ "-" +:+ table +:+ ".json") ∧
  has_byte "-" db = false ∧ has_byte "-" table = false.

(** ** Names for the requests, texts and states of a run *)

(** The decision both export loops take on a table, read off their two
    [continue] branches. *)
Definition keeps (tablesMap ignoreTables : gset string) (t : string) : bool :=
  negb (bool_decide (ToLower t ∈ ignoreTables)) &&
  negb ((0 <? size tablesMap)%nat && negb (bool_decide (ToLower t ∈ tablesMap))).

Definition showCreateSQL (db t : string) : string :=
  "show create table `" +:+ db +:+ "`.`" +:+ t +:+ "`".

Definition statsURL (h : tidbHandler) (db table : string) : string :=
  "http://" +:+ addr (h_opt h) +:+ ":" +:+ statusPort (h_opt h)
  +:+ "/stats/dump/" +:+ db +:+ "/" +:+ table.

Definition statsFile (db table dir : string) : string :=
  GoPath.Join [dir; "stats-" +:+ db +:+ "-" +:+ table +:+ ".json"].

Definition schemaFile (db dir : string) : string :=
  GoPath.Join [dir; "schema-" +:+ db +:+ ".sql"].

Definition addEvents (evs : list event) (st : state) : state :=
  {| fs := fs st; stdout := stdout st; trace := (trace st ++ evs)%list; session := session st |}.

Definition setFile (path : string) (c : content) (st : state) : state :=
  {| fs := <[path := c]> (fs st); stdout := stdout st; trace := trace st;
     session := session st |}.

Definition addLine (line : string) (st : state) : state :=
  {| fs := fs st; stdout := (stdout st ++ [line])%list; trace := trace st;
     session := session st |}.

Definition statsLine (h : tidbHandler) (db table dir : string) : string :=
  "export " +:+ addr (h_opt h) +:+ ":" +:+ port (h_opt h) +:+ "/" +:+ db +:+ "."
  +:+ table +:+ " stats into " +:+ statsFile db table dir.

Definition statsErr (db t dir err : string) : string :=
  "export DB: " +:+ db +:+ " table: " +:+ t +:+ " statistics to " +:+ dir
  +:+ " error: " +:+ err.

Definition withSession (db : string) (st : state) : state :=
  {| fs := fs st; stdout := stdout st; trace := trace st; session := db |}.

(** The directory a run works in. *)
Definition runDir (e : environment) (opt : transportOptions) : string :=
  if String.eqb (o_dir opt) "" then tmpPathDir e else o_dir opt.

(** The two halves of [RunE], each guarded by its address option. *)
Definition exportHalf (e : environment) (opt : transportOptions) : M unit :=
  if negb (String.eqb (addr (o_src opt)) "") then runExport e opt (runDir e opt) else ret tt.

Definition importHalf (e : environment) (opt : transportOptions) : M unit :=
  if negb (String.eqb (addr (o_dst opt)) "") then runImport e opt (runDir e opt) else ret tt.

Definition beginExportLine : string :=
  "begin to export schemas and statistics information from source databases".

Definition beginImportLine : string :=
  "begin to import schemas and statistics information into destination databases".

#[global] Instance event_eq_dec : EqDecision event.
Proof. solve_decision. Defined.

(** One per-table query of [exportDBSchemas] — [show create table], the
    scan of its first row, the close — in the session database [sess]. *)
Definition showCreateTable (h : tidbHandler) (sess db t : string) : result (string * string) :=
  match dbQuery (h_db h) sess (showCreateSQL db t) with
  | Err err => Err ("exec SQL: " +:+ showCreateSQL db t +:+ " error: " +:+ err)
  | Ok rows =>
      match Scan2 (head (rowsData rows)) with
      | Err err => Err ("scan rows error: " +:+ err)
      | Ok p =>
          match rowsCloseErr rows with
          | Some err => Err err
          | None => Ok p
          end
      end
  end.

Definition schemaErr (db dir err : string) : string :=
  "export DB: " +:+ db +:+ " schemas to " +:+ dir +:+ " error: " +:+ err.

Definition schemaLine (h : tidbHandler) (db dir : string) : string :=
  "export " +:+ addr (h_opt h) +:+ ":" +:+ port (h_opt h) +:+ "/" +:+ db
  +:+ " schemas into " +:+ schemaFile db dir.

Definition createDBSQL (db : string) : string :=
  "create database if not exists `" +:+ db +:+ "`".

Definition loadStatsSQL (fpath : string) : string :=
  "load stats '" +:+ fpath +:+ "'".

Definition statsPattern (db dir : string) : string :=
  GoPath.Join [dir; "stats-" +:+ db +:+ "-*[.]json"].

(** What holds of a state after statements were executed on it: the
    files are the same and no local file was registered. *)
Definition onlyExecs (st st' : state) : Prop :=
  fs st' = fs st ∧
  ∀ f, EvRegisterLocalFile f ∈ trace st' → EvRegisterLocalFile f ∈ trace st.

(** The fields [parseDBTables] reads off a file name: the [fields]
    variable of its walk function after the two prefix-and-suffix tests. *)
Definition nameFields (fname : string) : list string :=
  let fields : list string := [] in
  let fields :=
    if HasPrefix fname "schema-" && HasSuffix fname ".sql" then
      Split (slice fname (String.length "schema-")
               (String.length fname - String.length ".sql")) "-"
    else fields in
  let fields :=
    if HasPrefix fname "stats-" && HasSuffix fname ".json" then
      Split (slice fname (String.length "stats-")
               (String.length fname - String.length ".json")) "-"
    else fields in
  fields.

(** What the walk function reads off one visited entry. *)
Definition decodeEntry (entry : string * bool) : option (string * string) :=
  if entry.2 then None
  else match nameFields (GoPath.Base entry.1) with
       | [f0; f1] => Some (f0, f1)
       | _ => None
       end.

(** The files that hold a schema artifact of one of the databases. *)
Definition schemaFiles (dbs : list string) (dir : string) : list string :=
  (λ db, schemaFile db dir) <$> dbs.

Definition isDDL (c : content) : Prop := ∃ m, c = DDL m.


(** A string of white space only. *)
Fixpoint allSpace (s : string) : bool :=
  match s with
  | EmptyString => true
  | String c s' => Ascii.is_space c && allSpace s'
  end.


(** What an export of the databases [dbs] may do to the outside: switch
    the session to one of them, query, fetch. *)
Definition exportEvent (dbs : list string) (ev : event) : Prop :=
  match ev with
  | EvExec sql => ∃ db, db ∈ dbs ∧ sql = "use " +:+ db
  | EvQuery _ => True
  | EvGet _ => True
  | EvRegisterLocalFile _ => False
  end.

(** [st'] comes after [st] by events that all satisfy [P]. *)
Definition extendsBy (P : event → Prop) (st st' : state) : Prop :=
  ∃ evs, trace st' = (trace st ++ evs)%list ∧ Forall P evs.


(** The statements that the import of one database sends, given the
    files: create, switch, then the statements of its artifact, trimmed. *)
Definition importEvents (files : gmap string content) (dir db : string) : list event :=
  match files !! schemaFile db dir with
  | Some (DDL m) =>
      EvExec (createDBSQL db) :: EvExec ("use " +:+ db) ::
      ((λ kv, EvExec (TrimSpace kv.2)) <$> map_to_list m)
  | _ => []
  end.

(** What the import of one statistics artifact does: register the file,
    then load it. *)
Definition loadEvents (fpath : string) : list event :=
  [EvRegisterLocalFile fpath; EvExec (loadStatsSQL fpath)].


(** ** Plain text

    Text of ASCII bytes only.  On such text [ToLower] and [TrimSpace] of
    [GoStrings] are [strings.ToLower] and [strings.TrimSpace], which fold
    and trim more than ASCII on other text, and [encoding/json] writes a
    map of such text and reads it back as it is. *)
Fixpoint isASCII (s : string) : bool :=
  match s with
  | EmptyString => true
  | String c s' => (nat_of_ascii c <? 128)%nat && isASCII s'
  end.


(** Every database of [dbs] has its schema artifact among [files], and
    the artifact is a map of plain text. *)
Definition asciiArtifacts (files : gmap string content) (dbs : list string) (dir : string)
    : Prop :=
  ∀ db, db ∈ dbs →
    ∃ m, files !! schemaFile db dir = Some (DDL m) ∧
         map_Forall (λ table sql, isASCII table = true ∧ isASCII sql = true) m.


(** ** Sample worlds for the closed examples *)

Definition okRows (data : list (list string)) : result sqlRows :=
  Ok {| rowsData := data; rowsCloseErr := None |}.

(** A server with the database [d] holding the tables [t1], [t2], [t3]. *)
Definition sampleDB : sqlDB := {|
  dbPing := None;
  dbExec := λ _, None;
  dbQuery := λ sess sql,
    if String.eqb sql "show databases" then
      okRows [["test"]; ["MySQL"]; ["information_schema"]; ["d"]]
    else if String.eqb sql "show tables" then
      if String.eqb sess "d" then okRows [["t1"]; ["t2"]; ["t3"]] else okRows []
    else if HasPrefix sql "show create table `d`.`" then
      okRows [[slice sql 23 25; "create table " +:+ slice sql 23 25 +:+ " (a int)"]]
    else Err "unknown statement"
|}.

Definition sampleAccess (a : string) : tidbAccessOptions :=
  {| addr := a; statusPort := "10080"; port := "4000"; user := "root";
     password := ""; version := "" |}.

Definition sampleHandler : tidbHandler :=
  {| h_opt := sampleAccess "src"; h_db := sampleDB |}.

Definition emptyState : state :=
  {| fs := ∅; stdout := []; trace := []; session := "mysql" |}.

(** A world in which every request and every file operation succeeds. *)
Definition sampleEnv : environment := {|
  sqlOpen := λ _, Ok sampleDB;
  httpGet := λ url, Ok {| StatusCode := 200; Body := "{stats}"; BodyReadErr := None |};
  osMkdirAll := λ _, None;
  osOpenFileErr := λ _, None;
  osWriteErr := λ _, None;
  osCloseErr := λ _, None;
  filepathGlob := λ _, Ok [];
  osTempDir := "/tmp";
  timeNowRFC3339 := "2020-06-01T10:00:00Z"
|}.



(** A world whose diagnostic endpoint answers every request with status
    500 and an error page. *)
Definition sampleEnv500 : environment := {|
  sqlOpen := sqlOpen sampleEnv;
  httpGet := λ url,
    Ok {| StatusCode := 500; Body := "Internal Server Error"; BodyReadErr := None |};
  osMkdirAll := osMkdirAll sampleEnv;
  osOpenFileErr := osOpenFileErr sampleEnv;
  osWriteErr := osWriteErr sampleEnv;
  osCloseErr := osCloseErr sampleEnv;
  filepathGlob := filepathGlob sampleEnv;
  osTempDir := osTempDir sampleEnv;
  timeNowRFC3339 := timeNowRFC3339 sampleEnv
|}.

(** Export of database [d] restricted by an include and an exclude list. *)
Definition sampleFiltered (include exclude : list string) : transportOptions := {|
  o_src := sampleAccess "src";
  o_dst := sampleAccess "";
  o_dir := "out";
  o_dbs := ["d"];
  o_tables := include;
  o_ignoreTables := exclude
|}.




(** Import into database [d] from the directory [out]. *)
Definition sampleImport : transportOptions := {|
  o_src := sampleAccess "";
  o_dst := sampleAccess "dst";
  o_dir := "out";
  o_dbs := ["d"];
  o_tables := [];
  o_ignoreTables := []
|}.

(** A destination that refuses to load the statistics of [t1]. *)
Definition sampleDBCorrupt : sqlDB := {|
  dbPing := None;
  dbExec := λ sql,
    if String.eqb sql "load stats 'out/stats-d-t1.json'" then Some "invalid statistics file"
    else None;
  dbQuery := dbQuery sampleDB
|}.

Definition sampleHandlerCorrupt : tidbHandler :=
  {| h_opt := sampleAccess "dst"; h_db := sampleDBCorrupt |}.

Definition sampleEnvCorrupt : environment := {|
  sqlOpen := λ _, Ok sampleDBCorrupt;
  httpGet := httpGet sampleEnv;
  osMkdirAll := osMkdirAll sampleEnv;
  osOpenFileErr := osOpenFileErr sampleEnv;
  osWriteErr := osWriteErr sampleEnv;
  osCloseErr := osCloseErr sampleEnv;
  filepathGlob := λ pattern,
    if String.eqb pattern "out/stats-d-*[.]json"
    then Ok ["out/stats-d-t1.json"; "out/stats-d-t2.json"] else Ok [];
  osTempDir := osTempDir sampleEnv;
  timeNowRFC3339 := timeNowRFC3339 sampleEnv
|}.

(** A snapshot directory [out] with the artifacts of database [d]. *)
Definition snapshotState : state := {|
  fs := <["out/schema-d.sql" := DDL {["t1" := "create table t1 (a int)"]}]>
          (<["out/stats-d-t1.json" := Bytes "not statistics"]>
             (<["out/stats-d-t2.json" := Bytes "{stats}"]> ∅));
  stdout := [];
  trace := [];
  session := "mysql"
|}.

(** A server whose answer to [show databases] has a row of two columns. *)
Definition sampleDBWideRow : sqlDB := {|
  dbPing := None;
  dbExec := dbExec sampleDB;
  dbQuery := λ sess sql,
    if String.eqb sql "show databases" then okRows [["test"]; ["d"; "extra"]; ["e"]]
    else dbQuery sampleDB sess sql
|}.


(** A world in which no server can be reached. *)
Definition sampleEnvDown : environment := {|
  sqlOpen := λ _, Ok {| dbPing := Some "connection refused"; dbExec := dbExec sampleDB;
                        dbQuery := dbQuery sampleDB |};
  httpGet := httpGet sampleEnv;
  osMkdirAll := osMkdirAll sampleEnv;
  osOpenFileErr := osOpenFileErr sampleEnv;
  osWriteErr := osWriteErr sampleEnv;
  osCloseErr := osCloseErr sampleEnv;
  filepathGlob := filepathGlob sampleEnv;
  osTempDir := osTempDir sampleEnv;
  timeNowRFC3339 := timeNowRFC3339 sampleEnv
|}.

(** An instance starter that gives process 7 on the ports 4001 and 4002. *)
Definition sampleStart (version : string) : nat * nat * nat := (7, 4001, 4002).

Definition sampleAccessVersion (v : string) : tidbAccessOptions :=
  {| addr := "remote"; statusPort := "1"; port := "2"; user := "admin";
     password := "secret"; version := v |}.


(** * Properties *)

Local Open Scope nat_scope.
Local Open Scope list_scope.

#[local] Set Warnings "-clear-no-such-hyp".

#[local] Arguments GoPath.Join : simpl never.
#[local] Arguments GoPath.Base : simpl never.
#[local] Arguments HasPrefix : simpl never.
#[local] Arguments HasSuffix : simpl never.
#[local] Arguments slice : simpl never.

(** ** Letter case *)

Section LetterCase.

Lemma nat_of_ascii_inj c d : nat_of_ascii c = nat_of_ascii d → c = d.
Proof.
  intros H. rewrite <- (ascii_nat_embedding c), <- (ascii_nat_embedding d).
  by rewrite H.
Qed.

Lemma nat_of_lower_byte c :
  nat_of_ascii (lower_byte c) =
  if is_upper c then nat_of_ascii c + 32 else nat_of_ascii c.
Proof.
  unfold lower_byte. destruct (is_upper c) eqn:Hu; [|done].
  apply nat_ascii_embedding. unfold is_upper in Hu.
  apply andb_true_iff in Hu as [_ Hu]. apply Nat.leb_le in Hu. lia.
Qed.

Lemma is_upper_bounds c :
  is_upper c = true ↔ 65 ≤ nat_of_ascii c ≤ 90.
Proof.
  unfold is_upper. rewrite andb_true_iff, !Nat.leb_le. done.
Qed.

Lemma same_letter_lower c d : same_letter c d ↔ lower_byte c = lower_byte d.
Proof.
  split.
  - intros [->|[[Hu Hd]|[Hu Hc]]]; [done| |]; apply nat_of_ascii_inj;
      rewrite !nat_of_lower_byte, Hu.
    + destruct (is_upper d) eqn:Hud; [|lia].
      apply is_upper_bounds in Hu, Hud. lia.
    + destruct (is_upper c) eqn:Huc; [|lia].
      apply is_upper_bounds in Hu, Huc. lia.
  - intros H. apply (f_equal nat_of_ascii) in H. rewrite !nat_of_lower_byte in H.
    unfold same_letter.
    destruct (is_upper c) eqn:Huc, (is_upper d) eqn:Hud.
    + left. apply nat_of_ascii_inj. lia.
    + right; left. split; [done|lia].
    + right; right. split; [done|lia].
    + left. by apply nat_of_ascii_inj.
Qed.

Lemma CaseEq_ToLower s t : CaseEq s t ↔ ToLower s = ToLower t.
Proof.
  split.
  - induction 1 as [|c d s t Hcd _ IH]; [done|].
    simpl. apply same_letter_lower in Hcd. by rewrite Hcd, IH.
  - revert t. induction s as [|c s IH]; intros [|d t] H; simpl in H; try done.
    + constructor.
    + injection H as Hcd Hst. constructor; [by apply same_letter_lower|auto].
Qed.

Lemma CaseEq_sym s t : CaseEq s t → CaseEq t s.
Proof. rewrite !CaseEq_ToLower. done. Qed.

Lemma lower_byte_idemp c : lower_byte (lower_byte c) = lower_byte c.
Proof.
  apply nat_of_ascii_inj. rewrite (nat_of_lower_byte (lower_byte c)).
  destruct (is_upper (lower_byte c)) eqn:Hu; [|done].
  apply is_upper_bounds in Hu. rewrite nat_of_lower_byte in Hu.
  destruct (is_upper c) eqn:Hc; [apply is_upper_bounds in Hc; lia|].
  apply is_upper_bounds in Hu. unfold lower_byte in *. rewrite Hc in *. congruence.
Qed.

Lemma ToLower_idemp s : ToLower (ToLower s) = ToLower s.
Proof. induction s as [|c s IH]; [done|]. simpl. by rewrite lower_byte_idemp, IH. Qed.

Lemma CaseEq_ToLower_self s : CaseEq (ToLower s) s.
Proof. apply CaseEq_ToLower, ToLower_idemp. Qed.

End LetterCase.

(** ** Strings: prefixes, suffixes, slices and fields *)

Section Strings.

Lemma app_cons c s t : String c s +:+ t = String c (s +:+ t).
Proof. done. Qed.

Lemma app_empty_l t : "" +:+ t = t.
Proof. done. Qed.

Lemma app_assoc_s s t u : (s +:+ t) +:+ u = s +:+ (t +:+ u).
Proof. induction s as [|c s IH]; [done|]. by rewrite !app_cons, IH. Qed.

Lemma length_app s t : String.length (s +:+ t) = String.length s + String.length t.
Proof. induction s as [|c s IH]; [done|]. rewrite app_cons. simpl. by rewrite IH. Qed.

Lemma HasPrefix_cons c s d p :
  HasPrefix (String c s) (String d p) = Ascii.eqb c d && HasPrefix s p.
Proof. done. Qed.

Lemma HasPrefix_app p s : HasPrefix (p +:+ s) p = true.
Proof.
  induction p as [|c p IH]; [by destruct s|].
  rewrite app_cons, HasPrefix_cons, IH. by rewrite Ascii.eqb_refl.
Qed.

Lemma HasPrefix_inv s p : HasPrefix s p = true → ∃ r, s = p +:+ r.
Proof.
  revert s. induction p as [|c p IH]; intros s H.
  - by exists s.
  - destruct s as [|d s]; [done|]. rewrite HasPrefix_cons in H.
    apply andb_true_iff in H as [Hc Hp]. apply Ascii.eqb_eq in Hc as ->.
    destruct (IH _ Hp) as [r ->]. by exists r.
Qed.

Lemma substring_0_all s : substring 0 (String.length s) s = s.
Proof. induction s as [|c s IH]; [done|]. simpl. by rewrite IH. Qed.

Lemma substring_0_app s t : substring 0 (String.length s) (s +:+ t) = s.
Proof.
  induction s as [|c s IH]; [by destruct t|]. rewrite app_cons. simpl. by rewrite IH.
Qed.

Lemma substring_skip p n m s :
  substring (String.length p + n) m (p +:+ s) = substring n m s.
Proof. induction p as [|c p IH]; [done|]. rewrite app_cons. simpl. apply IH. Qed.

Lemma substring_split k s :
  k ≤ String.length s →
  s = substring 0 k s +:+ substring k (String.length s - k) s.
Proof.
  revert k. induction s as [|c s IH]; intros k Hk.
  - simpl in Hk. assert (k = 0) as -> by lia. done.
  - destruct k as [|k].
    + rewrite app_empty_l, Nat.sub_0_r. by rewrite substring_0_all.
    + simpl in Hk. simpl. rewrite app_cons. f_equal. apply IH. lia.
Qed.

Lemma slice_drop_prefix p s :
  slice (p +:+ s) (String.length p) (String.length (p +:+ s)) = s.
Proof.
  unfold slice. rewrite length_app.
  replace (String.length p + String.length s - String.length p)
    with (String.length s) by lia.
  rewrite <- (Nat.add_0_r (String.length p)) at 1.
  by rewrite substring_skip, substring_0_all.
Qed.

Lemma slice_middle p m q :
  slice (p +:+ m +:+ q) (String.length p)
    (String.length (p +:+ m +:+ q) - String.length q) = m.
Proof.
  unfold slice. rewrite !length_app.
  replace (String.length p + (String.length m + String.length q)
           - String.length q - String.length p) with (String.length m) by lia.
  rewrite <- (Nat.add_0_r (String.length p)) at 1.
  by rewrite substring_skip, substring_0_app.
Qed.

Lemma HasSuffix_app s q : HasSuffix (s +:+ q) q = true.
Proof.
  unfold HasSuffix. rewrite length_app.
  replace (String.length s + String.length q - String.length q)
    with (String.length s) by lia.
  rewrite <- (length_app s q), slice_drop_prefix, String.eqb_refl.
  rewrite andb_true_r. apply Nat.leb_le. rewrite length_app. lia.
Qed.

Lemma HasSuffix_inv s q : HasSuffix s q = true → ∃ r, s = r +:+ q.
Proof.
  unfold HasSuffix, slice. intros [Hlen Heq]%andb_true_iff.
  apply Nat.leb_le in Hlen. apply String.eqb_eq in Heq.
  exists (substring 0 (String.length s - String.length q) s).
  pose proof (substring_split (String.length s - String.length q) s) as Hs.
  rewrite Heq in Hs. apply Hs. lia.
Qed.

Lemma has_byte_app c s t : has_byte c (s +:+ t) = has_byte c s || has_byte c t.
Proof.
  induction s as [|d s IH]; [done|]. rewrite app_cons. simpl.
  by rewrite IH, orb_assoc.
Qed.

Lemma Split_nonempty s sep : Split s sep ≠ [].
Proof.
  destruct s as [|c s]; [done|]. simpl.
  destruct (Ascii.eqb c sep); [done|]. by destruct (Split s sep).
Qed.

Lemma Split_no_sep s sep : has_byte sep s = false → Split s sep = [s].
Proof.
  induction s as [|c s IH]; [done|]. simpl.
  intros [Hc Hs]%orb_false_iff. rewrite Hc, IH; done.
Qed.

Lemma Split_app_sep a b sep :
  Split (a +:+ String sep b) sep = Split a sep ++ Split b sep.
Proof.
  induction a as [|c a IH].
  - rewrite app_empty_l. simpl. by rewrite Ascii.eqb_refl.
  - rewrite app_cons. simpl. rewrite IH.
    destruct (Ascii.eqb c sep); [done|].
    pose proof (Split_nonempty a sep). by destruct (Split a sep).
Qed.

(** The fields of a split hold no separator, and joining them with the
    separator gives the string back. *)
Lemma Split_fields s sep :
  Forall (λ f, has_byte sep f = false) (Split s sep) ∧
  join (String sep "") (Split s sep) = s.
Proof.
  induction s as [|c s [IHf IHj]]; simpl.
  - split; [by repeat constructor|done].
  - destruct (Ascii.eqb c sep) eqn:Hc.
    + apply Ascii.eqb_eq in Hc as ->. split; [by constructor|].
      pose proof (Split_nonempty s sep).
      destruct (Split s sep) as [|f fs] eqn:Hs; [done|].
      change (join (String sep "") ("" :: f :: fs))
        with ("" +:+ String sep "" +:+ join (String sep "") (f :: fs)).
      by rewrite IHj.
    + destruct (Split s sep) as [|f fs] eqn:Hs; [by pose proof (Split_nonempty s sep)|].
      apply Forall_cons in IHf as [Hf Hfs]. split.
      * constructor; [|done]. simpl. by rewrite Hc, Hf.
      * destruct fs as [|f' fs]; simpl in *; [by rewrite IHj|].
        rewrite app_cons. by rewrite IHj.
Qed.

Lemma Split_two s sep f0 f1 :
  Split s sep = [f0; f1] ↔
  s = f0 +:+ String sep f1 ∧ has_byte sep f0 = false ∧ has_byte sep f1 = false.
Proof.
  split.
  - intros H. destruct (Split_fields s sep) as [Hf Hj]. rewrite H in Hf, Hj.
    apply Forall_cons in Hf as [H0 [H1 _]%Forall_cons]. done.
  - intros (-> & H0 & H1). by rewrite Split_app_sep, !Split_no_sep.
Qed.

End Strings.

(** ** Database enumeration *)

Section GetDBs.

Lemma isSysDBLoop_spec db l :
  isSysDBLoop db l = true ↔ ∃ sysDB, sysDB ∈ l ∧ CaseEq db sysDB.
Proof.
  induction l as [|x l IH]; simpl.
  - split; [done|]. intros (? & H & _). by apply elem_of_nil in H.
  - destruct (String.eqb_spec (ToLower db) (ToLower x)) as [Heq|Hne].
    + split; [|done]. intros _. exists x. split; [left|by apply CaseEq_ToLower].
    + rewrite IH. split.
      * intros (s & Hs & Hc). exists s. split; [by right|done].
      * intros (s & Hs & Hc). apply elem_of_cons in Hs as [->|Hs].
        -- by apply CaseEq_ToLower in Hc.
        -- eauto.
Qed.

Lemma scanDBs_spec rows acc dbs :
  scanDBs rows acc = Ok dbs →
  ∃ names, rows = (λ n, [n]) <$> names ∧
           dbs = acc ++ filter (λ n, isSysDB n = false) names.
Proof.
  revert acc. induction rows as [|row rows IH]; intros acc H; simpl in H.
  - exists []. injection H as <-. by rewrite app_nil_r.
  - destruct row as [|c [|c' row]]; simpl in H; try done.
    apply IH in H as (names & Hrows & Hdbs). exists (c :: names).
    split; [by rewrite Hrows|]. rewrite Hdbs, filter_cons.
    case_decide as Hc.
    + rewrite Hc. simpl. by rewrite <- app_assoc.
    + apply not_false_is_true in Hc. by rewrite Hc.
Qed.

Lemma getDBs_inv h st dbs st' :
  getDBs h st = (Ok dbs, st') →
  ∃ rows, dbQuery (h_db h) (session st) "show databases" = Ok rows ∧
          scanDBs (rowsData rows) [] = Ok dbs.
Proof.
  unfold getDBs, bind, wrapErr, Query, bind, emit, liftResult, ret, fail. simpl.
  destruct (dbQuery _ _ _) as [rows|msg]; [|done].
  intros H. exists rows. split; [done|].
  destruct (scanDBs _ _); simplify_eq; done.
Qed.

End GetDBs.

Section GetDBsClaims.

Lemma getDBs_ok h st rows names :
  dbQuery (h_db h) (session st) "show databases" = Ok rows →
  rowsData rows = (λ n, [n]) <$> names →
  (getDBs h st).1 = Ok (filter (λ n, isSysDB n = false) names).
Proof.
  intros Hq Hrows.
  unfold getDBs, bind, wrapErr, Query, bind, emit, liftResult, ret, fail. simpl.
  rewrite Hq, Hrows. clear Hrows.
  assert (∀ acc, scanDBs ((λ n, [n]) <$> names) acc
                 = Ok (acc ++ filter (λ n, isSysDB n = false) names)) as Hscan.
  { induction names as [|n names IH]; intros acc; simpl.
    - by rewrite app_nil_r.
    - rewrite IH, filter_cons. case_decide as Hn.
      + rewrite Hn. simpl. by rewrite <- app_assoc.
      + apply not_false_is_true in Hn. by rewrite Hn. }
  by rewrite Hscan.
Qed.

(** C10: whatever rows the server returns, no database in the list that
    [getDBs] returns is equal, up to letter case, to INFORMATION_SCHEMA,
    METRICS_SCHEMA, PERFORMANCE_SCHEMA or mysql. *)
Theorem C10_getDBs_excludes_system_databases
    (h : tidbHandler) (st st' : state) (dbs : list string) :
  getDBs h st = (Ok dbs, st') →
  ∀ d sysDB,
    d ∈ dbs →
    sysDB ∈ ["INFORMATION_SCHEMA"; "METRICS_SCHEMA"; "PERFORMANCE_SCHEMA"; "mysql"] →
    ¬ CaseEq d sysDB.
Proof.
  intros Hget d sysDB Hd Hsys Hcase.
  apply getDBs_inv in Hget as (rows & _ & Hscan).
  apply scanDBs_spec in Hscan as (names & _ & ->). simpl in Hd.
  apply list_elem_of_filter in Hd as [Hd _].
  assert (isSysDB d = true) as Ht; [|congruence].
  apply isSysDBLoop_spec. eauto.
Qed.

Lemma C10_getDBs_witness : ¬ CaseEq "d" "mysql".
Proof.
  apply (C10_getDBs_excludes_system_databases sampleHandler emptyState
           {| fs := ∅; stdout := []; trace := [EvQuery "show databases"];
              session := "mysql" |} ["test"; "d"]).
  - vm_compute. reflexivity.
  - apply list_elem_of_further, list_elem_of_here.
  - do 3 apply list_elem_of_further. apply list_elem_of_here.
Defined.

End GetDBsClaims.

(** ** Running the primitives *)

Section Primitives.

Lemma liftResult_run {A} (r : result A) st : liftResult r st = (r, st).
Proof. by destruct r. Qed.

Lemma bind_run {A B} (m : M A) (k : A → M B) st :
  bind m k st = match m st with
                | (Ok a, st') => k a st'
                | (Err msg, st') => (Err msg, st')
                end.
Proof. done. Qed.


Lemma Query_run db sql st :
  Query db sql st = (dbQuery db (session st) sql, addEvents [EvQuery sql] st).
Proof. unfold Query, bind, emit. simpl. by rewrite liftResult_run. Qed.

Lemma httpGET_run e url st :
  httpGET e url st = (httpGet e url, addEvents [EvGet url] st).
Proof. unfold httpGET, bind, emit. simpl. by rewrite liftResult_run. Qed.

Lemma addEvents_app evs1 evs2 st :
  addEvents evs2 (addEvents evs1 st) = addEvents (evs1 ++ evs2) st.
Proof. unfold addEvents. simpl. by rewrite app_assoc. Qed.

End Primitives.

(** ** The filter *)

Section Filter.

Lemma elem_of_stringSliceToMap strs x : x ∈ stringSliceToMap strs ↔ x ∈ strs.
Proof.
  unfold stringSliceToMap.
  assert (∀ acc : gset string,
            x ∈ fold_left (λ m str, {[str]} ∪ m) strs acc ↔ x ∈ strs ∨ x ∈ acc) as H.
  { induction strs as [|s strs IH]; intros acc; simpl.
    - set_solver.
    - rewrite IH. set_solver. }
  rewrite H. set_solver.
Qed.

Lemma size_stringSliceToMap strs :
  (0 <? size (stringSliceToMap strs)) = negb (bool_decide (strs = [])).
Proof.
  destruct strs as [|s strs].
  - done.
  - assert (s ∈ stringSliceToMap (s :: strs)) as Hs
      by (apply elem_of_stringSliceToMap; left).
    assert (size (stringSliceToMap (s :: strs)) ≠ 0) as Hne.
    { intros H0. apply size_empty_inv in H0. set_solver. }
    rewrite bool_decide_false by done. simpl. apply Nat.ltb_lt. lia.
Qed.

Lemma keeps_passes include exclude t :
  keeps (stringSliceToMap include) (stringSliceToMap exclude) t = passes include exclude t.
Proof.
  unfold keeps, passes. rewrite size_stringSliceToMap.
  rewrite (bool_decide_ext (ToLower t ∈ stringSliceToMap exclude) (ToLower t ∈ exclude))
    by apply elem_of_stringSliceToMap.
  rewrite (bool_decide_ext (ToLower t ∈ stringSliceToMap include) (ToLower t ∈ include))
    by apply elem_of_stringSliceToMap.
  destruct include as [|i include]; simpl.
  - by rewrite andb_true_r.
  - rewrite negb_involutive. apply andb_comm.
Qed.

End Filter.

(** ** Statistics export *)

Section StatsExport.
Context (e : environment) (h : tidbHandler) (dir : string).
Context (tablesMap ignoreTables : gset string).

Lemma exportTableStats_run db t st :
  exportTableStats e h db t dir st =
  let url := statsURL h db t in
  let path := statsFile db t dir in
  let st1 := addEvents [EvGet url] st in
  match httpGet e url with
  | Err err => (Err ("request URL: " +:+ url +:+ " error: " +:+ err), st1)
  | Ok resp =>
      match osOpenFileErr e path with
      | Some err => (Err err, st1)
      | None =>
          let st2 := setFile path (Bytes "") st1 in
          match BodyReadErr resp with
          | Some err => (Err err, st2)
          | None =>
              match osWriteErr e path with
              | Some err => (Err err, st2)
              | None =>
                  (Ok tt, addLine (statsLine h db t dir)
                            (setFile path (Bytes (Body resp)) st2))
              end
          end
      end
  end.
Proof.
  unfold exportTableStats. fold (statsURL h db t). fold (statsFile db t dir).
  rewrite bind_run. unfold wrapErr at 1. rewrite httpGET_run. simpl.
  destruct (httpGet e (statsURL h db t)) as [resp|err]; [|done].
  unfold OpenFile, Write, bind, liftErr, putFile, Println, ret, fail. simpl.
  destruct (osOpenFileErr e _); [done|]. simpl.
  destruct (BodyReadErr resp); [done|]. simpl.
  destruct (osWriteErr e _); done.
Qed.

Lemma exportTableStats_trace db t st :
  trace (exportTableStats e h db t dir st).2 = trace st ++ [EvGet (statsURL h db t)].
Proof.
  rewrite exportTableStats_run. simpl.
  repeat (case_match; simpl; try done).
Qed.

Lemma exportTableStats_session db t st :
  session (exportTableStats e h db t dir st).2 = session st.
Proof.
  rewrite exportTableStats_run. simpl.
  repeat (case_match; simpl; try done).
Qed.

Lemma exportStatsTables_cons db t ts st :
  exportStatsTables e h db dir tablesMap ignoreTables (t :: ts) st =
  if keeps tablesMap ignoreTables t then
    match wrapErr (statsErr db t dir) (exportTableStats e h db t dir) st with
    | (Ok _, st') => exportStatsTables e h db dir tablesMap ignoreTables ts st'
    | (Err msg, st') => (Err msg, st')
    end
  else
    exportStatsTables e h db dir tablesMap ignoreTables ts
      (if bool_decide (ToLower t ∈ ignoreTables)
       then addLine ("ignore table: " +:+ t) st else st).
Proof.
  unfold keeps. simpl.
  destruct (bool_decide (ToLower t ∈ ignoreTables)); simpl; [done|].
  destruct ((0 <? size tablesMap) && negb (bool_decide (ToLower t ∈ tablesMap))); done.
Qed.


(** On success the diagnostic endpoint was asked for exactly the tables
    the loop keeps, in order. *)
Lemma exportStatsTables_ok_trace db ts st st' :
  exportStatsTables e h db dir tablesMap ignoreTables ts st = (Ok tt, st') →
  trace st' = trace st ++
    ((λ t, EvGet (statsURL h db t)) <$> filter (λ t, keeps tablesMap ignoreTables t = true) ts)
  ∧ session st' = session st.
Proof.
  revert st. induction ts as [|t ts IH]; intros st.
  - simpl. intros [= <-]. by rewrite app_nil_r.
  - rewrite exportStatsTables_cons, filter_cons.
    destruct (keeps tablesMap ignoreTables t) eqn:Hk.
    + rewrite decide_True by done. unfold wrapErr.
      destruct (exportTableStats e h db t dir st) as [[[]|msg] st1] eqn:Hx; [|done].
      intros [Ht Hs]%IH.
      pose proof (exportTableStats_trace db t st) as Ht1.
      pose proof (exportTableStats_session db t st) as Hs1.
      rewrite Hx in Ht1, Hs1. simpl in Ht1, Hs1.
      rewrite Ht, Ht1, Hs, Hs1, fmap_cons, <- app_assoc. done.
    + rewrite decide_False by done. intros [Ht Hs]%IH.
      rewrite Ht, Hs. by destruct (bool_decide _).
Qed.


End StatsExport.

(** ** Sessions and table lists *)

Section GetTables.

Lemma Exec_run db sql st :
  Exec db sql st =
  match dbExec db sql with
  | Some err => (Err err, addEvents [EvExec sql] st)
  | None =>
      (Ok tt, if HasPrefix sql "use "
              then withSession (slice sql 4 (String.length sql)) (addEvents [EvExec sql] st)
              else addEvents [EvExec sql] st)
  end.
Proof.
  unfold Exec, bind, emit, liftErr, ret, fail, setSession. simpl.
  destruct (dbExec db sql); [done|]. by destruct (HasPrefix sql "use ").
Qed.

Lemma Exec_use_run db name st :
  Exec db ("use " +:+ name) st =
  match dbExec db ("use " +:+ name) with
  | Some err => (Err err, addEvents [EvExec ("use " +:+ name)] st)
  | None => (Ok tt, withSession name (addEvents [EvExec ("use " +:+ name)] st))
  end.
Proof.
  rewrite Exec_run. destruct (dbExec _ _); [done|].
  rewrite HasPrefix_app.
  change 4 with (String.length "use "). by rewrite slice_drop_prefix.
Qed.

Lemma getTables_run h db st :
  getTables h db st =
  match dbExec (h_db h) ("use " +:+ db) with
  | Some err =>
      (Err ("switch to DB: " +:+ db +:+ " error: " +:+ err),
       addEvents [EvExec ("use " +:+ db)] st)
  | None =>
      let st' := addEvents [EvQuery "show tables"]
                   (withSession db (addEvents [EvExec ("use " +:+ db)] st)) in
      match dbQuery (h_db h) db "show tables" with
      | Err err => (Err ("execute show tables error: " +:+ err), st')
      | Ok rows => (scanTables (rowsData rows) [], st')
      end
  end.
Proof.
  unfold getTables. rewrite bind_run. unfold wrapErr at 1. rewrite Exec_use_run.
  destruct (dbExec _ _); [done|].
  rewrite bind_run. unfold wrapErr. rewrite Query_run. simpl.
  destruct (dbQuery _ _ _); [|done]. by rewrite liftResult_run.
Qed.

Lemma getTables_frame h db st :
  fs (getTables h db st).2 = fs st ∧ stdout (getTables h db st).2 = stdout st.
Proof.
  rewrite getTables_run. destruct (dbExec _ _); [done|]. simpl.
  by destruct (dbQuery _ _ _).
Qed.

Lemma getTables_ok_session h db st tables st' :
  getTables h db st = (Ok tables, st') → session st' = db.
Proof.
  rewrite getTables_run. destruct (dbExec _ _); [done|]. simpl.
  destruct (dbQuery _ _ _); intros [= _ <-]; done.
Qed.

End GetTables.

(** ** The run *)

Section Run.
Context (e : environment) (opt : transportOptions).

Lemma RunE_run st :
  RunE e opt st =
  match osMkdirAll e (runDir e opt) with
  | Some err => (Err ("create destination directory error: " +:+ err), st)
  | None =>
      match exportHalf e opt st with
      | (Ok _, st') => importHalf e opt st'
      | (Err msg, st') => (Err msg, st')
      end
  end.
Proof.
  unfold RunE. fold (runDir e opt). rewrite bind_run. unfold wrapErr, liftErr.
  destruct (osMkdirAll e (runDir e opt)); [done|]. simpl.
  rewrite bind_run. fold (exportHalf e opt). fold (importHalf e opt).
  by destruct (exportHalf e opt st) as [[[]|?] ?].
Qed.

Lemma runExport_run dir st :
  runExport e opt dir st =
  let tablesMap := stringSliceToMap (o_tables opt) in
  let ignoreTablesMap := stringSliceToMap (o_ignoreTables opt) in
  match newDBHandler e (o_src opt) "" (addLine beginExportLine st) with
  | (Err msg, st') => (Err ("create source DB handler error: " +:+ msg), st')
  | (Ok src, st0) =>
      match exportSchemas e src (o_dbs opt) dir tablesMap ignoreTablesMap st0 with
      | (Err msg, st') => (Err ("export schemas error: " +:+ msg), st')
      | (Ok _, st1) =>
          match exportStats e src (o_dbs opt) dir tablesMap ignoreTablesMap st1 with
          | (Err msg, st') => (Err ("export statistics information error: " +:+ msg), st')
          | (Ok _, st2) =>
              (Ok tt, addLine "export schemas and statistics information from source databases successfully" st2)
          end
      end
  end.
Proof.
  unfold runExport. rewrite bind_run. unfold Println at 1. fold beginExportLine.
  fold (addLine beginExportLine st).
  rewrite bind_run. unfold wrapErr at 1.
  destruct (newDBHandler _ _ _ _) as [[src|?] st0]; [|done]. simpl.
  rewrite bind_run. unfold wrapErr at 1.
  destruct (exportSchemas _ _ _ _ _ _ _) as [[[]|?] st1]; [|done].
  rewrite bind_run. unfold wrapErr at 1.
  by destruct (exportStats _ _ _ _ _ _ _) as [[[]|?] st2].
Qed.

Lemma runImport_run dir st :
  runImport e opt dir st =
  match newDBHandler e (o_dst opt) "" (addLine beginImportLine st) with
  | (Err msg, st') => (Err ("create destination DB handler error: " +:+ msg), st')
  | (Ok dst, st0) =>
      match importSchemas dst (o_dbs opt) dir st0 with
      | (Err msg, st') => (Err ("import schemas error: " +:+ msg), st')
      | (Ok _, st1) =>
          match importStats e dst (o_dbs opt) dir st1 with
          | (Err msg, st') => (Err ("import statistics information error: " +:+ msg), st')
          | (Ok _, st2) =>
              (Ok tt, addLine "import schemas and statistics information into destination databases successfully" st2)
          end
      end
  end.
Proof.
  unfold runImport. rewrite bind_run. unfold Println at 1. fold beginImportLine.
  fold (addLine beginImportLine st).
  rewrite bind_run. unfold wrapErr at 1.
  destruct (newDBHandler _ _ _ _) as [[dst|?] st0]; [|done]. simpl.
  rewrite bind_run. unfold wrapErr at 1.
  destruct (importSchemas _ _ _ _) as [[[]|?] st1]; [|done].
  rewrite bind_run. unfold wrapErr at 1.
  by destruct (importStats _ _ _ _ _) as [[[]|?] st2].
Qed.

End Run.

(** ** Statistics export over the databases *)

Section StatsExportRun.
Context (e : environment).

Lemma exportStats_cons h db dbs dir tm it st :
  exportStats e h (db :: dbs) dir tm it st =
  match getTables h db st with
  | (Err msg, st') =>
      (Err ("get DB: " +:+ db +:+ " table information error: " +:+ msg), st')
  | (Ok tables, st1) =>
      match exportStatsTables e h db dir tm it tables st1 with
      | (Ok _, st2) => exportStats e h dbs dir tm it st2
      | (Err msg, st') => (Err msg, st')
      end
  end.
Proof.
  simpl. rewrite bind_run. unfold wrapErr.
  destruct (getTables h db st) as [[tables|?] st1]; [|done].
  rewrite bind_run. by destruct (exportStatsTables _ _ _ _ _ _ _ _) as [[[]|?] ?].
Qed.



(** C7 (as the code has it): a request that the transport could not
    carry out aborts the table's export with nothing written, while any
    response that arrives — whatever its status code — has its body
    written into the table's artifact and the export of the table
    succeeds. *)
Theorem C7_body_written_for_any_status (h : tidbHandler) (db t dir : string) (st : state) :
  (∀ err, httpGet e (statsURL h db t) = Err err →
     exportTableStats e h db t dir st =
     (Err ("request URL: " +:+ statsURL h db t +:+ " error: " +:+ err),
      addEvents [EvGet (statsURL h db t)] st)) ∧
  (∀ resp, httpGet e (statsURL h db t) = Ok resp →
     osOpenFileErr e (statsFile db t dir) = None →
     BodyReadErr resp = None →
     osWriteErr e (statsFile db t dir) = None →
     (exportTableStats e h db t dir st).1 = Ok tt ∧
     fs (exportTableStats e h db t dir st).2
     = <[statsFile db t dir := Bytes (Body resp)]> (fs st)).
Proof.
  split.
  - intros err Hget. rewrite exportTableStats_run. cbv zeta. by rewrite Hget.
  - intros resp Hget Hopen Hbody Hwrite.
    rewrite exportTableStats_run. cbv zeta. rewrite Hget, Hopen, Hbody, Hwrite. simpl.
    split; [done|]. apply insert_insert_eq.
Qed.

End StatsExportRun.

Lemma C7_body_written_witness :
  (exportTableStats sampleEnv500 sampleHandler "d" "t1" "out" emptyState).1 = Ok tt ∧
  fs (exportTableStats sampleEnv500 sampleHandler "d" "t1" "out" emptyState).2
  = <[statsFile "d" "t1" "out" := Bytes "Internal Server Error"]> (fs emptyState).
Proof.
  apply (proj2 (C7_body_written_for_any_status sampleEnv500 sampleHandler "d" "t1" "out"
                  emptyState)
           {| StatusCode := 500; Body := "Internal Server Error"; BodyReadErr := None |});
    reflexivity.
Defined.

(** C7, refuted as stated: the endpoint answers with status 500, and the
    error page is written as the table's statistics artifact. *)
Lemma C7_error_body_written :
  httpGet sampleEnv500 (statsURL sampleHandler "d" "t1")
  = Ok {| StatusCode := 500; Body := "Internal Server Error"; BodyReadErr := None |} ∧
  (exportTableStats sampleEnv500 sampleHandler "d" "t1" "out" emptyState).1 = Ok tt ∧
  fs (exportTableStats sampleEnv500 sampleHandler "d" "t1" "out" emptyState).2
    !! "out/stats-d-t1.json" = Some (Bytes "Internal Server Error").
Proof. repeat split; vm_compute; reflexivity. Qed.

Section StatsExportFatal.
Context (e : environment) (opt : transportOptions).


End StatsExportFatal.



(** ** Schema export *)

Section SchemaExport.
Context (h : tidbHandler) (db : string) (tablesMap ignoreTables : gset string).

Lemma exportDBSchemasLoop_cons t ts m st :
  exportDBSchemasLoop h db tablesMap ignoreTables (t :: ts) m st =
  if keeps tablesMap ignoreTables t then
    match showCreateTable h (session st) db t with
    | Err msg => (Err msg, addEvents [EvQuery (showCreateSQL db t)] st)
    | Ok (table, createSQL) =>
        exportDBSchemasLoop h db tablesMap ignoreTables ts (<[table := createSQL]> m)
          (addEvents [EvQuery (showCreateSQL db t)] st)
    end
  else
    exportDBSchemasLoop h db tablesMap ignoreTables ts m
      (if bool_decide (ToLower t ∈ ignoreTables)
       then addLine ("ignore table: " +:+ t) st else st).
Proof.
  unfold keeps. simpl.
  destruct (bool_decide (ToLower t ∈ ignoreTables)); simpl; [done|].
  destruct ((0 <? size tablesMap) && negb (bool_decide (ToLower t ∈ tablesMap))); [done|].
  simpl. fold (showCreateSQL db t). rewrite bind_run. unfold wrapErr, showCreateTable.
  rewrite Query_run. simpl.
  destruct (dbQuery (h_db h) (session st) (showCreateSQL db t)) as [rows|err]; [|done].
  destruct (Scan2 (head (rowsData rows))) as [[table createSQL]|err]; [|done].
  rewrite bind_run. unfold liftErr. by destruct (rowsCloseErr rows).
Qed.

(** The loop writes no file and leaves the session where it is. *)
Lemma exportDBSchemasLoop_frame ts m st :
  fs (exportDBSchemasLoop h db tablesMap ignoreTables ts m st).2 = fs st ∧
  session (exportDBSchemasLoop h db tablesMap ignoreTables ts m st).2 = session st.
Proof.
  revert m st. induction ts as [|t ts IH]; intros m st; [done|].
  rewrite exportDBSchemasLoop_cons. destruct (keeps tablesMap ignoreTables t).
  - destruct (showCreateTable h (session st) db t) as [[table createSQL]|msg]; [|done].
    destruct (IH (<[table := createSQL]> m)
                (addEvents [EvQuery (showCreateSQL db t)] st)) as [-> ->]. done.
  - destruct (IH m (if bool_decide (ToLower t ∈ ignoreTables)
                    then addLine ("ignore table: " +:+ t) st else st)) as [-> ->].
    by destruct (bool_decide _).
Qed.


(** On success [show create table] was asked for exactly the tables the
    loop keeps, in order. *)
Lemma exportDBSchemasLoop_ok_trace ts m st m' st' :
  exportDBSchemasLoop h db tablesMap ignoreTables ts m st = (Ok m', st') →
  trace st' = trace st ++
    ((λ t, EvQuery (showCreateSQL db t)) <$>
       filter (λ t, keeps tablesMap ignoreTables t = true) ts).
Proof.
  revert m st. induction ts as [|t ts IH]; intros m st.
  - simpl. intros [= _ <-]. by rewrite app_nil_r.
  - rewrite exportDBSchemasLoop_cons, filter_cons.
    destruct (keeps tablesMap ignoreTables t) eqn:Hk.
    + rewrite decide_True by done.
      destruct (showCreateTable h (session st) db t) as [[table createSQL]|msg]; [|done].
      intros ->%IH. simpl. by rewrite <- app_assoc.
    + rewrite decide_False by done. intros ->%IH. by destruct (bool_decide _).
Qed.

(** On success every kept table was answered, and the name the server
    gave for it is a key of the map. *)
Lemma exportDBSchemasLoop_ok_entries ts m st m' st' :
  exportDBSchemasLoop h db tablesMap ignoreTables ts m st = (Ok m', st') →
  (∀ k, is_Some (m !! k) → is_Some (m' !! k)) ∧
  ∀ t, t ∈ ts → keeps tablesMap ignoreTables t = true →
    ∃ table createSQL,
      showCreateTable h (session st) db t = Ok (table, createSQL) ∧ is_Some (m' !! table).
Proof.
  revert m st. induction ts as [|t ts IH]; intros m st.
  - simpl. intros [= <- _]. split; [done|]. intros t Ht. by apply elem_of_nil in Ht.
  - rewrite exportDBSchemasLoop_cons.
    destruct (keeps tablesMap ignoreTables t) eqn:Hk.
    + destruct (showCreateTable h (session st) db t) as [[table createSQL]|msg] eqn:Hq;
        [|done].
      intros [Hmono Hent]%IH. simpl in Hent. split.
      * intros k Hk'. apply Hmono. rewrite lookup_insert. case_decide; [by eexists|done].
      * intros t' [->|Ht']%elem_of_cons Hk'.
        -- exists table, createSQL. split; [done|]. apply Hmono.
           rewrite lookup_insert_eq. by eexists.
        -- by apply Hent.
    + intros [Hmono Hent]%IH. split; [done|].
      intros t' [->|Ht']%elem_of_cons Hk'; [congruence|].
      destruct (Hent t' Ht' Hk') as (table & createSQL & Hq & Hin).
      exists table, createSQL. split; [|done].
      by destruct (bool_decide (ToLower t ∈ ignoreTables)).
Qed.



(** When the server names each table as it was asked for, the map holds
    for every kept table the statement returned for it. *)
Lemma exportDBSchemasLoop_ok_echo ts m st m' st' :
  exportDBSchemasLoop h db tablesMap ignoreTables ts m st = (Ok m', st') →
  (∀ t table createSQL, t ∈ ts →
     showCreateTable h (session st) db t = Ok (table, createSQL) → table = t) →
  ∀ t table createSQL, t ∈ ts → keeps tablesMap ignoreTables t = true →
    showCreateTable h (session st) db t = Ok (table, createSQL) →
    m' !! t = Some createSQL.
Proof.
  revert m st. induction ts as [|t ts IH]; intros m st Hrun Hecho t' table createSQL Ht' Hk' Hq'.
  - by apply elem_of_nil in Ht'.
  - rewrite exportDBSchemasLoop_cons in Hrun.
    assert (∀ ts0 m0 st0 m1 st1 k v,
              exportDBSchemasLoop h db tablesMap ignoreTables ts0 m0 st0 = (Ok m1, st1) →
              m0 !! k = Some v → k ∉ ts0 →
              (∀ t table createSQL, t ∈ ts0 →
                 showCreateTable h (session st0) db t = Ok (table, createSQL) → table = t) →
              m1 !! k = Some v) as Hkeep.
    { clear. induction ts0 as [|t0 ts0 IH0]; intros m0 st0 m1 st1 k v Hrun Hk Hnot Hecho.
      - simpl in Hrun. by injection Hrun as <- _.
      - rewrite exportDBSchemasLoop_cons in Hrun.
        apply not_elem_of_cons in Hnot as [Hne Hnot].
        destruct (keeps tablesMap ignoreTables t0).
        + destruct (showCreateTable h (session st0) db t0) as [[tb sq]|msg] eqn:Hq; [|done].
          assert (tb = t0) as -> by (eapply Hecho; [left|done]).
          eapply IH0; [exact Hrun| |done|].
          * by rewrite lookup_insert_ne.
          * intros ????. apply Hecho. by right.
        + eapply IH0; [exact Hrun|done|done|].
          intros t table createSQL Ht Hq. eapply Hecho; [by right|].
          by destruct (bool_decide (ToLower t0 ∈ ignoreTables)). }
    destruct (decide (t' ∈ ts)) as [Hin|Hnotin].
    + destruct (keeps tablesMap ignoreTables t).
      * destruct (showCreateTable h (session st) db t) as [[tb sq]|msg] eqn:Hq; [|done].
        eapply IH; [exact Hrun| |exact Hin|done|exact Hq'].
        intros ????. apply Hecho. by right.
      * eapply IH; [exact Hrun| |exact Hin|done|].
        -- intros t0 tb0 sq0 Ht0 Hq0. eapply Hecho; [by right|].
           by destruct (bool_decide (ToLower t ∈ ignoreTables)).
        -- by destruct (bool_decide (ToLower t ∈ ignoreTables)).
    + apply elem_of_cons in Ht' as [->|?]; [|done].
      rewrite Hk', Hq' in Hrun.
      assert (table = t) as -> by (eapply Hecho; [left|done]).
      eapply Hkeep; [exact Hrun|apply lookup_insert_eq|done|].
      intros ????. apply Hecho. by right.
Qed.

End SchemaExport.

(** ** The filter, as both exports apply it *)

Section FilterClaims.

Lemma filter_keeps_passes include exclude (tables : list string) :
  filter (λ t, keeps (stringSliceToMap include) (stringSliceToMap exclude) t = true) tables
  = filter (λ t, passes include exclude t = true) tables.
Proof. apply list_filter_iff. intros t. by rewrite keeps_passes. Qed.

Lemma passes_lower include exclude t :
  ToLower t = t →
  passes include exclude t = true ↔ (include = [] ∨ t ∈ include) ∧ t ∉ exclude.
Proof.
  intros Ht. unfold passes. rewrite Ht. destruct include as [|i include].
  - rewrite negb_true_iff, bool_decide_eq_false. naive_solver.
  - rewrite andb_true_iff, negb_true_iff, bool_decide_eq_true, bool_decide_eq_false.
    naive_solver.
Qed.

(** What holds of the filter: a table is exported exactly when its
    case-folded name passes the filter set — with a non-empty include
    list, when it is in the include list and not in the exclude list;
    with an empty include list, unless it is in the exclude list.  Schema
    export asks [show create table] for exactly the passing tables and
    statistics export fetches exactly the same tables; for lower-case
    table names the membership is literal; of [t1], [t2], [t3] with
    include [t1], [t3] and exclude [t3] only [t1] passes (exclude wins). *)
Lemma filter_decides_both_exports
    (e : environment) (h : tidbHandler) (db dir : string)
    (include exclude tables : list string) :
  (∀ m st m' st',
     exportDBSchemasLoop h db (stringSliceToMap include) (stringSliceToMap exclude)
       tables m st = (Ok m', st') →
     trace st' = trace st ++
       ((λ t, EvQuery (showCreateSQL db t)) <$>
          filter (λ t, passes include exclude t = true) tables)) ∧
  (∀ st st',
     exportStatsTables e h db dir (stringSliceToMap include) (stringSliceToMap exclude)
       tables st = (Ok tt, st') →
     trace st' = trace st ++
       ((λ t, EvGet (statsURL h db t)) <$>
          filter (λ t, passes include exclude t = true) tables)) ∧
  (∀ t, ToLower t = t →
     passes include exclude t = true ↔ (include = [] ∨ t ∈ include) ∧ t ∉ exclude) ∧
  filter (λ t, passes ["t1"; "t3"] ["t3"] t = true) ["t1"; "t2"; "t3"] = ["t1"].
Proof.
  split; [|split; [|split]].
  - intros m st m' st' Hrun. rewrite <- filter_keeps_passes.
    by eapply exportDBSchemasLoop_ok_trace.
  - intros st st' Hrun. rewrite <- filter_keeps_passes.
    by eapply exportStatsTables_ok_trace.
  - intros t Ht. by apply passes_lower.
  - vm_compute. reflexivity.
Qed.

Lemma filter_decides_example :
  trace (exportStatsTables sampleEnv sampleHandler "d" "out"
           (stringSliceToMap ["t1"; "t3"]) (stringSliceToMap ["t3"])
           ["t1"; "t2"; "t3"] emptyState).2
  = trace emptyState ++
      ((λ t, EvGet (statsURL sampleHandler "d" t)) <$>
         filter (λ t, passes ["t1"; "t3"] ["t3"] t = true) ["t1"; "t2"; "t3"]).
Proof.
  apply (proj1 (proj2 (filter_decides_both_exports sampleEnv sampleHandler "d" "out"
                         ["t1"; "t3"] ["t3"] ["t1"; "t2"; "t3"])) emptyState).
  vm_compute. reflexivity.
Defined.

(** C2: the table [T1] is in the exclude list, the include list is empty,
    and both exports still take it: schema export asks for its statement
    and statistics export writes its artifact.  With the table and the
    entry both written [t1] it is left out. *)
Theorem C2_excluded_table_exported :
  "T1" ∈ ["T1"] ∧
  trace (exportDBSchemasLoop sampleHandler "d" (stringSliceToMap [])
           (stringSliceToMap ["T1"]) ["T1"] ∅ emptyState).2
    = [EvQuery "show create table `d`.`T1`"] ∧
  fs (exportStatsTables sampleEnv sampleHandler "d" "out" (stringSliceToMap [])
        (stringSliceToMap ["T1"]) ["T1"] emptyState).2
    !! statsFile "d" "T1" "out" = Some (Bytes "{stats}") ∧
  fs (exportStatsTables sampleEnv sampleHandler "d" "out" (stringSliceToMap [])
        (stringSliceToMap ["t1"]) ["t1"] emptyState).2
    !! statsFile "d" "t1" "out" = None.
Proof.
  split; [apply list_elem_of_here|].
  repeat split; vm_compute; reflexivity.
Qed.

(** C3: the case of a filter entry decides the export.  The table [t1] is
    left out when the exclude list names it [t1] and exported when the
    list names it [T1]; it is exported when the include list names it
    [t1] and left out when the list names it [T1]. *)
Theorem C3_entry_case_changes_export :
  CaseEq "T1" "t1" ∧
  fs (RunE sampleEnv (sampleFiltered [] ["t1"]) emptyState).2
    !! statsFile "d" "t1" "out" = None ∧
  fs (RunE sampleEnv (sampleFiltered [] ["T1"]) emptyState).2
    !! statsFile "d" "t1" "out" = Some (Bytes "{stats}") ∧
  fs (RunE sampleEnv (sampleFiltered ["t1"] []) emptyState).2
    !! statsFile "d" "t1" "out" = Some (Bytes "{stats}") ∧
  fs (RunE sampleEnv (sampleFiltered ["T1"] []) emptyState).2
    !! statsFile "d" "t1" "out" = None.
Proof.
  split; [by apply CaseEq_ToLower|].
  repeat split; vm_compute; reflexivity.
Qed.

(** The case of the table's own name does not matter to the filter. *)
Lemma filter_table_name_case include exclude t t' :
  CaseEq t t' → passes include exclude t = passes include exclude t'.
Proof. intros H%CaseEq_ToLower. unfold passes. by rewrite H. Qed.

End FilterClaims.

(** ** The filter on filter sets written in lower case *)

Section LowerCaseFilterSets.

Lemma folded_elem_case_insensitive (l : list string) t :
  Forall (λ x, ToLower x = x) l →
  ToLower t ∈ l ↔ ∃ x, x ∈ l ∧ CaseEq t x.
Proof.
  intros Hl. split.
  - intros Hin. exists (ToLower t). split; [done|]. apply CaseEq_sym, CaseEq_ToLower_self.
  - intros (x & Hin & Hc). apply CaseEq_ToLower in Hc.
    rewrite Forall_forall in Hl. rewrite Hc, (Hl x Hin). done.
Qed.

(** When every entry of the filter set is in lower case, the filter
    invariant holds with case-insensitive membership, for every table
    name. *)
Lemma passes_case_insensitive include exclude t :
  Forall (λ x, ToLower x = x) include →
  Forall (λ x, ToLower x = x) exclude →
  passes include exclude t = true ↔
  (include = [] ∨ ∃ x, x ∈ include ∧ CaseEq t x) ∧ ¬ ∃ x, x ∈ exclude ∧ CaseEq t x.
Proof.
  intros Hinc Hexc.
  rewrite <- (folded_elem_case_insensitive exclude t Hexc).
  unfold passes. destruct include as [|i include].
  - rewrite negb_true_iff, bool_decide_eq_false. naive_solver.
  - rewrite <- (folded_elem_case_insensitive (i :: include) t Hinc).
    rewrite andb_true_iff, negb_true_iff, bool_decide_eq_true, bool_decide_eq_false.
    naive_solver.
Qed.

End LowerCaseFilterSets.

(** ** Schema export of a database, and of the databases *)

Section SchemaExportRun.
Context (e : environment).

Lemma exportDBSchemas_run h db dir tm it st :
  exportDBSchemas e h db dir tm it st =
  match getTables h db st with
  | (Err msg, st') =>
      (Err ("get DB: " +:+ db +:+ " table information error: " +:+ msg), st')
  | (Ok tables, st0) =>
      match exportDBSchemasLoop h db tm it tables ∅ st0 with
      | (Err msg, st') => (Err msg, st')
      | (Ok m, st1) =>
          let path := schemaFile db dir in
          match osOpenFileErr e path with
          | Some err => (Err err, st1)
          | None =>
              match osWriteErr e path with
              | Some err => (Err err, setFile path (Bytes "") st1)
              | None =>
                  let st2 := setFile path (DDL m) (setFile path (Bytes "") st1) in
                  match osCloseErr e path with
                  | Some err => (Err err, st2)
                  | None => (Ok tt, addLine (schemaLine h db dir) st2)
                  end
              end
          end
      end
  end.
Proof.
  unfold exportDBSchemas. fold (schemaFile db dir). rewrite bind_run. unfold wrapErr.
  destruct (getTables h db st) as [[tables|?] st0]; [|done].
  rewrite bind_run.
  destruct (exportDBSchemasLoop h db tm it tables ∅ st0) as [[m|?] st1]; [|done].
  unfold OpenFile, Write, Close, MarshalIndent, bind, liftErr, liftResult, putFile,
    Println, ret, fail. simpl.
  destruct (osOpenFileErr e _); [done|]. simpl.
  destruct (osWriteErr e _); [done|]. simpl.
  destruct (osCloseErr e _); done.
Qed.

Lemma exportSchemas_cons h db dbs dir tm it st :
  exportSchemas e h (db :: dbs) dir tm it st =
  match exportDBSchemas e h db dir tm it st with
  | (Ok _, st') => exportSchemas e h dbs dir tm it st'
  | (Err msg, st') => (Err (schemaErr db dir msg), st')
  end.
Proof.
  simpl. rewrite bind_run. unfold wrapErr.
  by destruct (exportDBSchemas e h db dir tm it st) as [[[]|?] ?].
Qed.



(** A database that was exported has its artifact written, with an
    entry for every table that passes the filter. *)
Lemma exportDBSchemas_ok h db dir tm it st st' :
  exportDBSchemas e h db dir tm it st = (Ok tt, st') →
  ∃ tables m,
    (getTables h db st).1 = Ok tables ∧
    fs st' = <[schemaFile db dir := DDL m]> (fs st) ∧
    ∀ t, t ∈ tables → keeps tm it t = true →
      ∃ table createSQL,
        showCreateTable h db db t = Ok (table, createSQL) ∧
        is_Some (m !! table) ∧
        ((∀ t' tb sq, t' ∈ tables → showCreateTable h db db t' = Ok (tb, sq) → tb = t') →
         m !! t = Some createSQL).
Proof.
  rewrite exportDBSchemas_run.
  destruct (getTables h db st) as [[tables|?] st0] eqn:Htables; [|done].
  destruct (exportDBSchemasLoop h db tm it tables ∅ st0) as [[m|?] st1] eqn:Hloop; [|done].
  cbv zeta.
  destruct (osOpenFileErr e _); [done|].
  destruct (osWriteErr e _); [done|].
  destruct (osCloseErr e _); [done|].
  intros [= <-]. exists tables, m. split; [done|].
  pose proof (getTables_ok_session _ _ _ _ _ Htables) as Hs0.
  destruct (exportDBSchemasLoop_frame h db tm it tables ∅ st0) as [Hfs _].
  rewrite Hloop in Hfs. simpl in Hfs.
  destruct (getTables_frame h db st) as [Hfs0 _]. rewrite Htables in Hfs0. simpl in Hfs0.
  split.
  - simpl. rewrite insert_insert_eq. congruence.
  - intros t Ht Hk.
    destruct (exportDBSchemasLoop_ok_entries _ _ _ _ _ _ _ _ _ Hloop) as [_ Hent].
    destruct (Hent t Ht Hk) as (table & createSQL & Hq & Hin). rewrite Hs0 in Hq.
    exists table, createSQL. split; [done|]. split; [done|].
    intros Hecho.
    eapply (exportDBSchemasLoop_ok_echo _ _ _ _ _ _ _ _ _ Hloop); [|done|done|].
    + intros ???. rewrite Hs0. apply Hecho.
    + by rewrite Hs0.
Qed.


End SchemaExportRun.

Section SchemaExportClaims.
Context (e : environment) (opt : transportOptions).



End SchemaExportClaims.


(** ** Import *)

Section SchemaImport.

Lemma HasPrefix_head_ne c s d p : c ≠ d → HasPrefix (String c s) (String d p) = false.
Proof.
  intros Hne. rewrite HasPrefix_cons.
  destruct (Ascii.eqb_spec c d); [done|]. done.
Qed.

Lemma Exec_create_run db name st :
  Exec db (createDBSQL name) st =
  match dbExec db (createDBSQL name) with
  | Some err => (Err err, addEvents [EvExec (createDBSQL name)] st)
  | None => (Ok tt, addEvents [EvExec (createDBSQL name)] st)
  end.
Proof.
  rewrite Exec_run. destruct (dbExec _ _); [done|].
  unfold createDBSQL at 1. rewrite app_cons, HasPrefix_head_ne; done.
Qed.

Lemma Exec_load_run db fpath st :
  Exec db (loadStatsSQL fpath) st =
  match dbExec db (loadStatsSQL fpath) with
  | Some err => (Err err, addEvents [EvExec (loadStatsSQL fpath)] st)
  | None => (Ok tt, addEvents [EvExec (loadStatsSQL fpath)] st)
  end.
Proof.
  rewrite Exec_run. destruct (dbExec _ _); [done|].
  unfold loadStatsSQL at 1. rewrite app_cons, HasPrefix_head_ne; done.
Qed.

Lemma onlyExecs_refl st : onlyExecs st st.
Proof. by split. Qed.

Lemma onlyExecs_trans st1 st2 st3 : onlyExecs st1 st2 → onlyExecs st2 st3 → onlyExecs st1 st3.
Proof. intros [H1 H1'] [H2 H2']. split; [congruence|auto]. Qed.

Lemma onlyExecs_Exec db sql st : onlyExecs st (Exec db sql st).2.
Proof.
  rewrite Exec_run.
  assert (onlyExecs st (addEvents [EvExec sql] st)) as Hev.
  { split; [done|]. simpl. intros f [?|Hin]%elem_of_app; [done|].
    apply list_elem_of_singleton in Hin. done. }
  destruct (dbExec db sql); [done|]. simpl.
  destruct (HasPrefix sql "use "); [|done]. destruct Hev. by split.
Qed.

Lemma onlyExecs_addLine line st : onlyExecs st (addLine line st).
Proof. by split. Qed.

Lemma importStatements_onlyExecs h path sqls st :
  onlyExecs st (importStatements h path sqls st).2.
Proof.
  revert st. induction sqls as [|sql sqls IH]; intros st; [apply onlyExecs_refl|].
  simpl. rewrite bind_run. unfold wrapErr.
  pose proof (onlyExecs_Exec (h_db h) (TrimSpace sql) st) as Hx.
  destruct (Exec (h_db h) (TrimSpace sql) st) as [[[]|?] st1]; [|done].
  eapply onlyExecs_trans; [exact Hx|apply IH].
Qed.

Lemma importSchemas_cons h db dbs dir st :
  importSchemas h (db :: dbs) dir st =
  let path := schemaFile db dir in
  match dbExec (h_db h) (createDBSQL db) with
  | Some err =>
      (Err ("create DB: " +:+ db +:+ " error: " +:+ err),
       addEvents [EvExec (createDBSQL db)] st)
  | None =>
      let st1 := addEvents [EvExec (createDBSQL db)] st in
      match dbExec (h_db h) ("use " +:+ db) with
      | Some err =>
          (Err ("switch to DB: " +:+ db +:+ " error: " +:+ err),
           addEvents [EvExec ("use " +:+ db)] st1)
      | None =>
          let st2 := withSession db (addEvents [EvExec ("use " +:+ db)] st1) in
          match fs st !! path with
          | None =>
              (Err ("read file " +:+ path +:+ " err: " +:+
                    ("open " +:+ path +:+ ": no such file or directory")), st2)
          | Some content =>
              match Unmarshal content with
              | Err err => (Err ("unmarshal file " +:+ path +:+ " err: " +:+ err), st2)
              | Ok tableSchemas =>
                  match importStatements h path (snd <$> map_to_list tableSchemas) st2 with
                  | (Err msg, st') => (Err msg, st')
                  | (Ok _, st3) =>
                      importSchemas h dbs dir
                        (addLine ("import schemas from " +:+ path +:+ " into "
                                  +:+ addr (h_opt h) +:+ ":" +:+ port (h_opt h)
                                  +:+ "/" +:+ db) st3)
                  end
              end
          end
      end
  end.
Proof.
  cbn [importSchemas]. fold (schemaFile db dir). fold (createDBSQL db).
  rewrite bind_run. unfold wrapErr at 1. rewrite Exec_create_run.
  destruct (dbExec (h_db h) (createDBSQL db)); [done|].
  rewrite bind_run. unfold wrapErr at 1. rewrite Exec_use_run.
  destruct (dbExec (h_db h) ("use " +:+ db)); [done|]. cbv zeta.
  rewrite bind_run. unfold wrapErr at 1, ReadFile. simpl.
  destruct (fs st !! schemaFile db dir) as [content|]; [|done].
  rewrite bind_run. unfold wrapErr at 1. rewrite liftResult_run.
  destruct (Unmarshal content) as [tableSchemas|?]; [|done].
  rewrite bind_run.
  destruct (importStatements _ _ _ _) as [[[]|?] st3]; [|done].
  by rewrite bind_run.
Qed.

Lemma importSchemas_onlyExecs h dbs dir st :
  onlyExecs st (importSchemas h dbs dir st).2.
Proof.
  revert st. induction dbs as [|db dbs IH]; intros st; [apply onlyExecs_refl|].
  rewrite importSchemas_cons. cbv zeta.
  assert (∀ evs, Forall (λ ev, ∃ sql, ev = EvExec sql) evs →
                 onlyExecs st (addEvents evs st)) as Hev.
  { intros evs Hevs. split; [done|]. simpl. intros f [?|Hin]%elem_of_app; [done|].
    rewrite Forall_forall in Hevs. by destruct (Hevs _ Hin). }
  assert (onlyExecs st (withSession db (addEvents [EvExec ("use " +:+ db)]
                          (addEvents [EvExec (createDBSQL db)] st)))) as Hst2.
  { rewrite addEvents_app. destruct (Hev [EvExec (createDBSQL db); EvExec ("use " +:+ db)]).
    - repeat constructor; eauto.
    - by split. }
  destruct (dbExec (h_db h) (createDBSQL db)).
  { apply Hev. repeat constructor; eauto. }
  destruct (dbExec (h_db h) ("use " +:+ db)).
  { rewrite addEvents_app. apply Hev. repeat constructor; eauto. }
  destruct (fs st !! schemaFile db dir) as [content|]; [|done].
  destruct (Unmarshal content) as [tableSchemas|?]; [|done].
  match goal with |- context [importStatements ?a ?b ?c ?d] =>
    pose proof (importStatements_onlyExecs a b c d) as Hx;
    destruct (importStatements a b c d) as [[[]|?] st3] end.
  - eapply onlyExecs_trans; [exact Hst2|].
    eapply onlyExecs_trans; [exact Hx|].
    eapply onlyExecs_trans; [apply onlyExecs_addLine|apply IH].
  - eapply onlyExecs_trans; [exact Hst2|exact Hx].
Qed.

Lemma importSchemas_app h dbs1 dbs2 dir st :
  importSchemas h (dbs1 ++ dbs2) dir st =
  match importSchemas h dbs1 dir st with
  | (Ok _, st') => importSchemas h dbs2 dir st'
  | (Err msg, st') => (Err msg, st')
  end.
Proof.
  revert st. induction dbs1 as [|db dbs1 IH]; intros st; [done|].
  rewrite <- app_comm_cons, !importSchemas_cons. cbv zeta.
  destruct (dbExec (h_db h) (createDBSQL db)); [done|].
  destruct (dbExec (h_db h) ("use " +:+ db)); [done|].
  destruct (fs st !! schemaFile db dir) as [content|]; [|done].
  destruct (Unmarshal content) as [tableSchemas|?]; [|done].
  destruct (importStatements _ _ _ _) as [[[]|?] st3]; [apply IH|done].
Qed.

(** A database without its artifact makes schema import fail, whatever
    else happens. *)
Lemma importSchemas_missing h dbs dir db st :
  db ∈ dbs → fs st !! schemaFile db dir = None →
  ∃ msg, (importSchemas h dbs dir st).1 = Err msg.
Proof.
  revert st. induction dbs as [|db0 dbs IH]; intros st Hin Hmiss.
  - by apply elem_of_nil in Hin.
  - rewrite importSchemas_cons. cbv zeta.
    destruct (dbExec (h_db h) (createDBSQL db0)); [by eexists|].
    destruct (dbExec (h_db h) ("use " +:+ db0)); [by eexists|].
    destruct (fs st !! schemaFile db0 dir) as [content|] eqn:Hfile; [|by eexists].
    destruct (Unmarshal content) as [tableSchemas|?]; [|by eexists].
    match goal with |- context [importStatements ?a ?b ?c ?d] =>
      pose proof (importStatements_onlyExecs a b c d) as [Hfs _];
      destruct (importStatements a b c d) as [[[]|?] st3] end; [|by eexists].
    apply elem_of_cons in Hin as [->|Hin]; [congruence|].
    apply IH; [done|]. simpl in *. congruence.
Qed.

End SchemaImport.

Section ImportClaims.
Context (e : environment) (opt : transportOptions).

Lemma RunE_import_run st stE :
  String.eqb (addr (o_dst opt)) "" = false →
  osMkdirAll e (runDir e opt) = None →
  exportHalf e opt st = (Ok tt, stE) →
  RunE e opt st = runImport e opt (runDir e opt) stE.
Proof.
  intros Hdst Hmk Hexp. rewrite RunE_run, Hmk, Hexp. unfold importHalf. by rewrite Hdst.
Qed.

(** C9: when the artifact of a database is missing at import time, schema
    import fails and the run ends before statistics import: no local file
    is registered.  When the import reaches the database — the databases
    before it were imported and the database could be created and
    switched to — the error is the read error, which names the missing
    path, and the run ends in the state of that read. *)
Theorem C9_missing_artifact_aborts_import :
  (∀ h dbsPre db dbsPost st stE st0 st1,
     String.eqb (addr (o_dst opt)) "" = false →
     osMkdirAll e (runDir e opt) = None →
     exportHalf e opt st = (Ok tt, stE) →
     newDBHandler e (o_dst opt) "" (addLine beginImportLine stE) = (Ok h, st0) →
     o_dbs opt = dbsPre ++ db :: dbsPost →
     importSchemas h dbsPre (runDir e opt) st0 = (Ok tt, st1) →
     dbExec (h_db h) (createDBSQL db) = None →
     dbExec (h_db h) ("use " +:+ db) = None →
     fs st1 !! schemaFile db (runDir e opt) = None →
     RunE e opt st =
     (Err ("import schemas error: " +:+
           ("read file " +:+ schemaFile db (runDir e opt) +:+ " err: " +:+
            ("open " +:+ schemaFile db (runDir e opt) +:+ ": no such file or directory"))),
      withSession db
        (addEvents [EvExec (createDBSQL db); EvExec ("use " +:+ db)] st1))) ∧
  (∀ h db st stE st0,
     String.eqb (addr (o_dst opt)) "" = false →
     osMkdirAll e (runDir e opt) = None →
     exportHalf e opt st = (Ok tt, stE) →
     newDBHandler e (o_dst opt) "" (addLine beginImportLine stE) = (Ok h, st0) →
     db ∈ o_dbs opt →
     fs st0 !! schemaFile db (runDir e opt) = None →
     ∃ msg st',
       RunE e opt st = (Err ("import schemas error: " +:+ msg), st') ∧
       ∀ f, EvRegisterLocalFile f ∈ trace st' → EvRegisterLocalFile f ∈ trace st0).
Proof.
  split.
  - intros h dbsPre db dbsPost st stE st0 st1 Hdst Hmk Hexp Hnew Hdbs Hpre Hcreate Huse Hmiss.
    rewrite (RunE_import_run _ _ Hdst Hmk Hexp), runImport_run, Hnew, Hdbs.
    rewrite importSchemas_app, Hpre, importSchemas_cons. cbv zeta.
    rewrite Hcreate, Huse, Hmiss. by rewrite addEvents_app.
  - intros h db st stE st0 Hdst Hmk Hexp Hnew Hin Hmiss.
    rewrite (RunE_import_run _ _ Hdst Hmk Hexp), runImport_run, Hnew.
    destruct (importSchemas_missing h _ (runDir e opt) db st0 Hin Hmiss) as [msg Hmsg].
    destruct (importSchemas_onlyExecs h (o_dbs opt) (runDir e opt) st0) as [_ Htrace].
    destruct (importSchemas h (o_dbs opt) (runDir e opt) st0) as [[[]|msg'] st'];
      [done|]. eauto.
Qed.

End ImportClaims.

Lemma C9_missing_artifact_witness :
  ∃ st',
    RunE sampleEnv sampleImport emptyState =
    (Err ("import schemas error: " +:+
          ("read file " +:+ "out/schema-d.sql" +:+ " err: " +:+
           ("open " +:+ "out/schema-d.sql" +:+ ": no such file or directory"))), st').
Proof.
  eexists.
  eapply (proj1 (C9_missing_artifact_aborts_import sampleEnv sampleImport)
            {| h_opt := sampleAccess "dst"; h_db := sampleDB |} [] "d" []).
  - reflexivity.
  - reflexivity.
  - reflexivity.
  - vm_compute. reflexivity.
  - reflexivity.
  - reflexivity.
  - reflexivity.
  - reflexivity.
  - reflexivity.
Defined.

(** ** Statistics import *)

Section StatsImport.
Context (e : environment) (h : tidbHandler).

Lemma importStatsFiles_cons db fpath files st :
  importStatsFiles h db (fpath :: files) st =
  match dbExec (h_db h) (loadStatsSQL fpath) with
  | Some err =>
      (Err err, addEvents [EvRegisterLocalFile fpath; EvExec (loadStatsSQL fpath)] st)
  | None =>
      importStatsFiles h db files
        (addLine ("import stats from " +:+ fpath +:+ " into " +:+ addr (h_opt h) +:+ ":"
                  +:+ port (h_opt h) +:+ "/" +:+ db)
           (addEvents [EvRegisterLocalFile fpath; EvExec (loadStatsSQL fpath)] st))
  end.
Proof.
  cbn [importStatsFiles]. fold (loadStatsSQL fpath).
  rewrite bind_run. unfold emit at 1. rewrite bind_run, Exec_load_run.
  fold (addEvents [EvRegisterLocalFile fpath] st). rewrite addEvents_app. simpl.
  destruct (dbExec (h_db h) (loadStatsSQL fpath)); [done|]. by rewrite bind_run.
Qed.

Lemma importStatsFiles_app db files1 files2 st :
  importStatsFiles h db (files1 ++ files2) st =
  match importStatsFiles h db files1 st with
  | (Ok _, st') => importStatsFiles h db files2 st'
  | (Err msg, st') => (Err msg, st')
  end.
Proof.
  revert st. induction files1 as [|f files1 IH]; intros st; [done|].
  rewrite <- app_comm_cons, !importStatsFiles_cons.
  destruct (dbExec (h_db h) (loadStatsSQL f)); [done|apply IH].
Qed.

Lemma importStats_cons db dbs dir st :
  importStats e h (db :: dbs) dir st =
  match filepathGlob e (statsPattern db dir) with
  | Err msg => (Err msg, st)
  | Ok files =>
      match importStatsFiles h db files st with
      | (Ok _, st') => importStats e h dbs dir st'
      | (Err msg, st') => (Err msg, st')
      end
  end.
Proof.
  cbn [importStats]. fold (statsPattern db dir). rewrite bind_run, liftResult_run.
  destruct (filepathGlob e (statsPattern db dir)) as [files|?]; [|done].
  rewrite bind_run. by destruct (importStatsFiles h db files st) as [[[]|?] ?].
Qed.

Lemma importStats_app dbs1 dbs2 dir st :
  importStats e h (dbs1 ++ dbs2) dir st =
  match importStats e h dbs1 dir st with
  | (Ok _, st') => importStats e h dbs2 dir st'
  | (Err msg, st') => (Err msg, st')
  end.
Proof.
  revert st. induction dbs1 as [|db dbs1 IH]; intros st; [done|].
  rewrite <- app_comm_cons, !importStats_cons.
  destruct (filepathGlob e (statsPattern db dir)) as [files|?]; [|done].
  destruct (importStatsFiles h db files st) as [[[]|?] ?]; [apply IH|done].
Qed.

(** A statement that fails ends statistics import: the files and the
    databases after it are not looked at. *)
Lemma importStats_stop dir dbsPre db dbsPost pre fpath post err st st1 st2 :
  importStats e h dbsPre dir st = (Ok tt, st1) →
  filepathGlob e (statsPattern db dir) = Ok (pre ++ fpath :: post) →
  importStatsFiles h db pre st1 = (Ok tt, st2) →
  dbExec (h_db h) (loadStatsSQL fpath) = Some err →
  importStats e h (dbsPre ++ db :: dbsPost) dir st
  = (Err err, addEvents [EvRegisterLocalFile fpath; EvExec (loadStatsSQL fpath)] st2).
Proof.
  intros Hpre Hglob Hfiles Hload.
  rewrite importStats_app, Hpre, importStats_cons, Hglob.
  by rewrite importStatsFiles_app, Hfiles, importStatsFiles_cons, Hload.
Qed.

End StatsImport.

Section StatsImportClaims.
Context (e : environment) (opt : transportOptions).

(** C6 (as the code has it): when the statement that loads one statistics
    artifact fails, the run ends there with that error.  The artifacts
    before it have been loaded; the state the run ends in is the one the
    failed statement left, so no later artifact and no later database is
    imported. *)
Theorem C6_stats_load_failure_ends_run
    (h : tidbHandler) (dbsPre dbsPost pre post : list string) (db fpath err : string)
    (st stE st0 st1 st2 st3 : state) :
  String.eqb (addr (o_dst opt)) "" = false →
  osMkdirAll e (runDir e opt) = None →
  exportHalf e opt st = (Ok tt, stE) →
  newDBHandler e (o_dst opt) "" (addLine beginImportLine stE) = (Ok h, st0) →
  importSchemas h (o_dbs opt) (runDir e opt) st0 = (Ok tt, st1) →
  o_dbs opt = dbsPre ++ db :: dbsPost →
  importStats e h dbsPre (runDir e opt) st1 = (Ok tt, st2) →
  filepathGlob e (statsPattern db (runDir e opt)) = Ok (pre ++ fpath :: post) →
  importStatsFiles h db pre st2 = (Ok tt, st3) →
  dbExec (h_db h) (loadStatsSQL fpath) = Some err →
  RunE e opt st =
  (Err ("import statistics information error: " +:+ err),
   addEvents [EvRegisterLocalFile fpath; EvExec (loadStatsSQL fpath)] st3).
Proof.
  intros Hdst Hmk Hexp Hnew Hschemas Hdbs Hpre Hglob Hfiles Hload.
  rewrite (RunE_import_run _ _ _ _ Hdst Hmk Hexp), runImport_run, Hnew, Hschemas.
  rewrite Hdbs at 1.
  by rewrite (importStats_stop _ _ _ _ _ _ _ _ _ _ _ _ _ Hpre Hglob Hfiles Hload).
Qed.

End StatsImportClaims.

Lemma C6_stats_load_failure_witness :
  ∃ st',
    RunE sampleEnvCorrupt sampleImport snapshotState =
    (Err ("import statistics information error: " +:+ "invalid statistics file"), st').
Proof.
  eexists.
  eapply (C6_stats_load_failure_ends_run sampleEnvCorrupt sampleImport
            sampleHandlerCorrupt [] [] [] ["out/stats-d-t2.json"] "d" "out/stats-d-t1.json").
  - reflexivity.
  - reflexivity.
  - reflexivity.
  - vm_compute. reflexivity.
  - vm_compute. reflexivity.
  - reflexivity.
  - reflexivity.
  - reflexivity.
  - reflexivity.
  - reflexivity.
Defined.

(** C6, refuted as stated: the statistics of [t1] cannot be loaded; the
    run ends with that error and the sibling artifact of [t2] is never
    registered nor loaded. *)
Lemma C6_sibling_not_imported :
  filepathGlob sampleEnvCorrupt (statsPattern "d" "out")
    = Ok ["out/stats-d-t1.json"; "out/stats-d-t2.json"] ∧
  dbExec sampleDBCorrupt (loadStatsSQL "out/stats-d-t1.json") = Some "invalid statistics file" ∧
  dbExec sampleDBCorrupt (loadStatsSQL "out/stats-d-t2.json") = None ∧
  (RunE sampleEnvCorrupt sampleImport snapshotState).1
    = Err "import statistics information error: invalid statistics file" ∧
  (EvRegisterLocalFile "out/stats-d-t2.json"
     ∉ trace (RunE sampleEnvCorrupt sampleImport snapshotState).2) ∧
  (EvExec (loadStatsSQL "out/stats-d-t2.json")
     ∉ trace (RunE sampleEnvCorrupt sampleImport snapshotState).2).
Proof.
  repeat split; try (vm_compute; reflexivity).
  - apply (bool_decide_unpack _). vm_compute. exact I.
  - apply (bool_decide_unpack _). vm_compute. exact I.
Qed.

(** ** Paths *)

Section Paths.

Lemma join_snoc sep l x :
  join sep (l ++ [x]) = match l with [] => x | _ => join sep l +:+ sep +:+ x end.
Proof.
  induction l as [|y l IH]; [done|].
  destruct l as [|z l]; [done|].
  change (join sep ((y :: z :: l) ++ [x])) with (y +:+ sep +:+ join sep ((z :: l) ++ [x])).
  rewrite IH. change (join sep (y :: z :: l)) with (y +:+ sep +:+ join sep (z :: l)).
  by rewrite !app_assoc_s.
Qed.

Lemma app_nonempty_r x name : name ≠ "" → x +:+ name ≠ "".
Proof.
  intros Hne H. apply (f_equal String.length) in H. rewrite length_app in H.
  destruct name; [done|]. simpl in H. lia.
Qed.

Lemma strip_trailing_slashes_name x name :
  name ≠ "" → has_byte "/" name = false →
  GoPath.strip_trailing_slashes (x +:+ name) = x +:+ name.
Proof.
  intros Hne Hslash. induction x as [|d x IH].
  - rewrite app_empty_l. clear Hne. induction name as [|c name IH]; [done|].
    simpl in Hslash. apply orb_false_iff in Hslash as [Hc Hname]. simpl.
    destruct name as [|c' name]; [by rewrite Hc|].
    rewrite IH; done.
  - rewrite app_cons. simpl. rewrite IH.
    pose proof (app_nonempty_r x name Hne). by destruct (x +:+ name).
Qed.

Lemma HasPrefix_slash_no_slash name :
  has_byte "/" name = false → HasPrefix name "/" = false.
Proof.
  destruct name as [|c name]; [done|]. simpl. intros [Hc _]%orb_false_iff.
  by rewrite HasPrefix_cons, Hc.
Qed.

(** The last element of a path that ends in a plain file name. *)
Lemma Base_name x name :
  (x = "" ∨ ∃ y, x = y +:+ "/") →
  name ≠ "" → has_byte "/" name = false →
  GoPath.Base (x +:+ name) = name.
Proof.
  intros Hx Hne Hslash. unfold GoPath.Base.
  destruct (String.eqb_spec (x +:+ name) "") as [H0|_]; [by apply app_nonempty_r in H0|].
  rewrite strip_trailing_slashes_name by done.
  assert (List.last (Split (x +:+ name) "/") "" = name) as ->.
  { destruct Hx as [->|[y ->]].
    - rewrite app_empty_l, Split_no_sep by done. reflexivity.
    - rewrite app_assoc_s. change ("/" +:+ name) with (String "/" name).
      rewrite Split_app_sep, (Split_no_sep name) by done. apply last_last. }
  by destruct (String.eqb_spec name "").
Qed.

Lemma Clean_name x name :
  name ≠ "" → name ≠ "." → name ≠ ".." → has_byte "/" name = false →
  ∃ x', (x' = "" ∨ ∃ y, x' = y +:+ "/") ∧
        GoPath.Clean (x +:+ String "/" name) = x' +:+ name.
Proof.
  intros Hne Hdot Hdotdot Hslash. unfold GoPath.Clean.
  destruct (String.eqb_spec (x +:+ String "/" name) "") as [H0|_];
    [by apply app_nonempty_r in H0|].
  rewrite Split_app_sep, (Split_no_sep name) by done.
  rewrite fold_left_app. simpl.
  set (rooted := HasPrefix (x +:+ String "/" name) "/").
  set (stack := fold_left (GoPath.clean_step rooted) (Split x "/") []).
  assert (GoPath.clean_step rooted stack name = name :: stack) as ->.
  { unfold GoPath.clean_step.
    destruct (String.eqb_spec name ""); [done|].
    destruct (String.eqb_spec name "."); [done|].
    by destruct (String.eqb_spec name ".."). }
  simpl. rewrite join_snoc.
  set (pre := if rooted then "/" else "").
  destruct (rev stack) as [|s0 kept] eqn:Hkept.
  - exists pre. split.
    + destruct rooted; [right; by exists ""|by left].
    + destruct (String.eqb_spec (pre +:+ name) "") as [H0|_];
        [by apply app_nonempty_r in H0|done].
  - exists (pre +:+ join "/" (s0 :: kept) +:+ "/"). split.
    + right. exists (pre +:+ join "/" (s0 :: kept)). by rewrite app_assoc_s.
    + rewrite !app_assoc_s.
      destruct (String.eqb_spec (pre +:+ join "/" (s0 :: kept) +:+ "/" +:+ name) "")
        as [H0|_]; [|done].
      rewrite <- !app_assoc_s in H0. by apply app_nonempty_r in H0.
Qed.

Lemma Clean_plain_name name :
  name ≠ "" → name ≠ "." → name ≠ ".." → has_byte "/" name = false →
  GoPath.Clean name = name.
Proof.
  intros Hne Hdot Hdotdot Hslash. unfold GoPath.Clean.
  destruct (String.eqb_spec name ""); [done|].
  rewrite Split_no_sep, HasPrefix_slash_no_slash by done. simpl.
  unfold GoPath.clean_step.
  destruct (String.eqb_spec name ""); [done|].
  destruct (String.eqb_spec name "."); [done|].
  destruct (String.eqb_spec name ".."); [done|]. simpl.
  rewrite app_empty_l. by destruct (String.eqb_spec name "").
Qed.

(** Joining a directory and a plain file name, then taking the last
    element, gives the file name back. *)
Lemma Base_Join dir name :
  name ≠ "" → name ≠ "." → name ≠ ".." → has_byte "/" name = false →
  GoPath.Base (GoPath.Join [dir; name]) = name.
Proof.
  intros Hne Hdot Hdotdot Hslash. unfold GoPath.Join. simpl.
  destruct (String.eqb_spec name "") as [|_]; [done|]. rewrite andb_false_r.
  destruct dir as [|c dir].
  - simpl. destruct (String.eqb_spec name "") as [|_]; [done|]. simpl.
    rewrite app_empty_l, Clean_plain_name by done.
    rewrite <- (app_empty_l name) at 1. apply Base_name; auto.
  - simpl. rewrite app_assoc_s, app_empty_l. change ("/" +:+ name) with (String "/" name).
    destruct (Clean_name (String c dir) name) as (x' & Hx' & ->); try done.
    by apply Base_name.
Qed.

End Paths.

(** ** The directory parse *)

Section Parse.

(** A prefix that ends in a byte the suffix does not hold cannot overlap
    the suffix. *)
Lemma prefix_suffix_middle p c q x y :
  has_byte c q = false →
  (p +:+ String c "") +:+ x = y +:+ q →
  ∃ m, x = m +:+ q ∧ y = (p +:+ String c "") +:+ m.
Proof.
  intros Hq. revert y. induction p as [|e p IH]; intros y H.
  - rewrite app_empty_l, app_cons, app_empty_l in H.
    destruct y as [|d y].
    + rewrite app_empty_l in H. subst q. simpl in Hq. by rewrite Ascii.eqb_refl in Hq.
    + rewrite app_cons in H. injection H as <- H. exists y. by rewrite app_empty_l.
  - rewrite !app_cons in H. destruct y as [|d y].
    + rewrite app_empty_l in H. subst q. simpl in Hq.
      apply orb_false_iff in Hq as [_ Hq].
      rewrite !has_byte_app in Hq. simpl in Hq. rewrite Ascii.eqb_refl in Hq.
      by rewrite orb_true_r in Hq.
    + rewrite app_cons in H. injection H as <- H.
      destruct (IH y H) as (m & -> & ->). exists m. by rewrite !app_cons.
Qed.

Lemma between_prefix_suffix p c q fname :
  has_byte c q = false →
  HasPrefix fname (p +:+ String c "") = true → HasSuffix fname q = true →
  ∃ m, fname = (p +:+ String c "") +:+ m +:+ q.
Proof.
  intros Hq [x ->]%HasPrefix_inv [y Hy]%HasSuffix_inv.
  destruct (prefix_suffix_middle p c q x y Hq Hy) as (m & -> & _). by exists m.
Qed.

Lemma nameFields_stats m :
  nameFields ("stats-" +:+ m +:+ ".json") = Split m "-".
Proof.
  unfold nameFields. cbv zeta.
  rewrite (HasPrefix_app "stats-").
  assert (HasSuffix ("stats-" +:+ m +:+ ".json") ".json" = true) as ->
    by (rewrite <- app_assoc_s; apply HasSuffix_app).
  cbn [andb]. by rewrite (slice_middle "stats-" m ".json").
Qed.

Lemma nameFields_schema m :
  nameFields ("schema-" +:+ m +:+ ".sql") = Split m "-".
Proof.
  unfold nameFields. cbv zeta.
  assert (HasPrefix ("schema-" +:+ m +:+ ".sql") "stats-" = false) as -> by done.
  rewrite (HasPrefix_app "schema-").
  assert (HasSuffix ("schema-" +:+ m +:+ ".sql") ".sql" = true) as ->
    by (rewrite <- app_assoc_s; apply HasSuffix_app).
  cbn [andb]. by rewrite (slice_middle "schema-" m ".sql").
Qed.

Lemma nameFields_inv fname :
  nameFields fname ≠ [] →
  ∃ m, (fname = "schema-" +:+ m +:+ ".sql" ∨ fname = "stats-" +:+ m +:+ ".json") ∧
       nameFields fname = Split m "-".
Proof.
  intros Hne.
  destruct (HasPrefix fname "stats-" && HasSuffix fname ".json") eqn:Hstats.
  - apply andb_true_iff in Hstats as [Hp Hs].
    destruct (between_prefix_suffix "stats" "-" ".json" fname) as [m ->]; try done.
    exists m. split; [by right|apply nameFields_stats].
  - destruct (HasPrefix fname "schema-" && HasSuffix fname ".sql") eqn:Hschema.
    + apply andb_true_iff in Hschema as [Hp Hs].
      destruct (between_prefix_suffix "schema" "-" ".sql" fname) as [m ->]; try done.
      exists m. split; [by left|apply nameFields_schema].
    + unfold nameFields in Hne. cbv zeta in Hne. by rewrite Hstats, Hschema in Hne.
Qed.

(** The walk function keeps a name exactly when it follows the naming
    convention, and reads the pair off it. *)
Lemma nameFields_artifactName fname db table :
  nameFields fname = [db; table] ↔ artifactName fname db table.
Proof.
  split.
  - intros H. destruct (nameFields_inv fname) as (m & Hname & Hfields); [by rewrite H|].
    rewrite H in Hfields. symmetry in Hfields.
    apply Split_two in Hfields as (-> & Hdb & Htable).
    split; [|done]. change (String "-" table) with ("-" +:+ table) in Hname.
    by rewrite !app_assoc_s in Hname.
  - intros [[->| ->] [Hdb Htable]].
    + rewrite <- (app_assoc_s db "-" (table +:+ ".sql")), <- (app_assoc_s (db +:+ "-")).
      rewrite nameFields_schema, app_assoc_s. by apply Split_two.
    + rewrite <- (app_assoc_s db "-" (table +:+ ".json")), <- (app_assoc_s (db +:+ "-")).
      rewrite nameFields_stats, app_assoc_s. by apply Split_two.
Qed.

Lemma walkFn_run dbTables fpath isDir :
  walkFn dbTables (fpath, isDir) =
  if isDir then dbTables
  else match nameFields (GoPath.Base fpath) with
       | [f0; f1] => <[f0 := (dbTables !!! f0) ++ [f1]]> dbTables
       | _ => dbTables
       end.
Proof. done. Qed.



(** A directory with artifacts and other files. *)
Example parse_mixed_directory :
  (parseDBTables
     [("out", true); ("out/notes.txt", false); ("out/schema-d.sql", false);
      ("out/schema-d-t1.json", false); ("out/stats-d-t1.json", false);
      ("out/stats-d-t1-old.json", false); ("out/stats-e-t2.json", false);
      ("out/stats-d-t3.json", false); ("out/stats-x-y.json", true)]).1
  = {["d" := ["t1"; "t3"]; "e" := ["t2"]]}.
Proof. vm_compute. reflexivity. Qed.

End Parse.

Section RoundTrip.


Lemma Base_Join_artifact dir pre db table suf c :
  has_byte "/" (String c pre) = false → has_byte "/" suf = false →
  has_byte "/" db = false → has_byte "/" table = false →
  c ≠ "."%char →
  GoPath.Base (GoPath.Join [dir; String c pre +:+ db +:+ "-" +:+ table +:+ suf])
  = String c pre +:+ db +:+ "-" +:+ table +:+ suf.
Proof.
  intros Hpre Hsuf Hdb Htable Hc. apply Base_Join.
  - by rewrite app_cons.
  - rewrite app_cons. intros [= ? _]. done.
  - rewrite app_cons. intros [= ? _]. done.
  - rewrite !has_byte_app, Hpre, Hdb, Htable, Hsuf. done.
Qed.




(** A slash in a name breaks the round trip: the parse looks at the last
    path element only. *)
Lemma round_trip_needs_plain_names :
  (parseDBTables [(statsPath "a/b" "t" "out", false)]).1 = ∅.
Proof. vm_compute. reflexivity. Qed.

End RoundTrip.


(** * More properties of the command *)

(** ** Versions *)

Section Versions.

Lemma String_compare_refl s : String.compare s s = Eq.
Proof.
  induction s as [|c s IH]; [done|]. simpl.
  unfold Ascii.compare. by rewrite N.compare_refl.
Qed.

Lemma compareVer_compare ver1 ver2 :
  compareVer ver1 ver2 =
  match String.compare ver1 ver2 with
  | Lt => (-1)%Z
  | Eq => 0%Z
  | Gt => 1%Z
  end.
Proof.
  unfold compareVer, String.ltb.
  destruct (String.compare ver1 ver2) eqn:Hc; [| done |].
  - apply String.compare_eq_iff in Hc as ->. by rewrite String.eqb_refl.
  - destruct (String.eqb_spec ver1 ver2) as [->|_]; [|done].
    pose proof (String_compare_refl ver2). congruence.
Qed.

Lemma compareVer_le ver1 ver2 : (compareVer ver1 ver2 ≤ 0)%Z ↔ String.le ver1 ver2.
Proof.
  rewrite compareVer_compare. unfold String.le, String.leb.
  destruct (String.compare ver1 ver2); simpl; split; (done || lia).
Qed.

(** [compareVer] is a total order on versions read as byte strings: its
    result is 0 exactly for equal versions, swapping the arguments
    negates it, and "at most" is transitive. *)
Theorem compareVer_total_order (ver1 ver2 ver3 : string) :
  (compareVer ver1 ver2 = 0%Z ↔ ver1 = ver2) ∧
  compareVer ver2 ver1 = (- compareVer ver1 ver2)%Z ∧
  ((compareVer ver1 ver2 ≤ 0)%Z → (compareVer ver2 ver3 ≤ 0)%Z →
   (compareVer ver1 ver3 ≤ 0)%Z).
Proof.
  split; [|split].
  - rewrite compareVer_compare. split.
    + destruct (String.compare ver1 ver2) eqn:Hc; [|done..].
      intros _. by apply String.compare_eq_iff.
    + intros ->. by rewrite String_compare_refl.
  - rewrite !compareVer_compare, (String.compare_antisym ver1 ver2).
    by destruct (String.compare ver2 ver1).
  - rewrite !compareVer_le. intros H12 H23. by etrans.
Qed.

Lemma compareVer_total_order_witness : (compareVer "v4.0.0" "v5.1.0" ≤ 0)%Z.
Proof.
  apply (proj2 (proj2 (compareVer_total_order "v4.0.0" "v4.0.9" "v5.1.0"))); by vm_compute.
Defined.

(** A version that another one extends is the smaller of the two. *)
Theorem compareVer_prefix (ver suffix : string) :
  suffix ≠ "" → compareVer ver (ver +:+ suffix) = (-1)%Z.
Proof.
  intros Hne. rewrite compareVer_compare.
  assert (String.compare ver (ver +:+ suffix) = Lt) as ->; [|done].
  induction ver as [|c ver IH].
  - rewrite app_empty_l. by destruct suffix.
  - rewrite app_cons. simpl.
    unfold Ascii.compare. by rewrite N.compare_refl.
Qed.

Lemma compareVer_prefix_witness : compareVer "v4.0" ("v4.0" +:+ ".1") = (-1)%Z.
Proof. apply (compareVer_prefix "v4.0" ".1"). done. Defined.

End Versions.

(** ** System databases and the table list *)

Section Enumeration.

(** Of a name in plain text, [isSysDB] holds exactly when the name is, up
    to letter case, one of the four system databases. *)
Theorem isSysDB_case_insensitive (db : string) :
  isASCII db = true →
  isSysDB db = true ↔
  ∃ sysDB,
    sysDB ∈ ["INFORMATION_SCHEMA"; "METRICS_SCHEMA"; "PERFORMANCE_SCHEMA"; "mysql"] ∧
    CaseEq db sysDB.
Proof. intros _. apply isSysDBLoop_spec. Qed.

Lemma isSysDB_case_insensitive_witness :
  isSysDB "Metrics_Schema" = true ↔
  ∃ sysDB,
    sysDB ∈ ["INFORMATION_SCHEMA"; "METRICS_SCHEMA"; "PERFORMANCE_SCHEMA"; "mysql"] ∧
    CaseEq "Metrics_Schema" sysDB.
Proof. apply (isSysDB_case_insensitive "Metrics_Schema"). reflexivity. Defined.

(** When every row of [show databases] has one column, holding a name in
    plain text, [getDBs] returns the names that are no system database,
    in the order of the rows, and does nothing but that one query. *)
Theorem getDBs_user_databases (h : tidbHandler) (st : state) (rows : sqlRows)
    (names : list string) :
  dbQuery (h_db h) (session st) "show databases" = Ok rows →
  rowsData rows = (λ n, [n]) <$> names →
  Forall (λ n, isASCII n = true) names →
  getDBs h st =
  (Ok (filter (λ n, isSysDB n = false) names), addEvents [EvQuery "show databases"] st).
Proof.
  intros Hq Hrows _. pose proof (getDBs_ok h st rows names Hq Hrows) as Hok.
  unfold getDBs in *. rewrite bind_run in *. unfold wrapErr in *.
  rewrite Query_run, Hq in *. rewrite liftResult_run in *. simpl in Hok. by rewrite Hok.
Qed.

Lemma getDBs_user_databases_witness :
  getDBs sampleHandler emptyState =
  (Ok (filter (λ n, isSysDB n = false) ["test"; "MySQL"; "information_schema"; "d"]),
   addEvents [EvQuery "show databases"] emptyState).
Proof.
  apply (getDBs_user_databases sampleHandler emptyState
           {| rowsData := [["test"]; ["MySQL"]; ["information_schema"]; ["d"]];
              rowsCloseErr := None |}); [reflexivity|reflexivity|by repeat constructor].
Defined.

Lemma scanDBs_bad_row names row rest acc :
  length row ≠ 1 →
  scanDBs (((λ n, [n]) <$> names) ++ row :: rest) acc =
  Err ("scan rows err: " +:+
       ("sql: expected " +:+ pretty (length row) +:+ " destination arguments in Scan, not 1")).
Proof.
  intros Hrow. revert acc. induction names as [|n names IH]; intros acc.
  - simpl. destruct row as [|c [|c' row]]; done.
  - simpl. apply IH.
Qed.

(** A row that has not exactly one column makes [getDBs] fail with a scan
    error; the names read before it are not returned. *)
Theorem getDBs_bad_row (h : tidbHandler) (st : state) (rows : sqlRows)
    (names : list string) (row : list string) (rest : list (list string)) :
  dbQuery (h_db h) (session st) "show databases" = Ok rows →
  rowsData rows = ((λ n, [n]) <$> names) ++ row :: rest →
  length row ≠ 1 →
  (getDBs h st).1 =
  Err ("scan rows err: " +:+
       ("sql: expected " +:+ pretty (length row) +:+ " destination arguments in Scan, not 1")).
Proof.
  intros Hq Hrows Hrow. unfold getDBs. rewrite bind_run. unfold wrapErr.
  rewrite Query_run, Hq, liftResult_run, Hrows. simpl. by rewrite scanDBs_bad_row.
Qed.

Lemma getDBs_bad_row_witness :
  (getDBs {| h_opt := sampleAccess "src"; h_db := sampleDBWideRow |} emptyState).1 =
  Err ("scan rows err: " +:+
       ("sql: expected " +:+ pretty 2 +:+ " destination arguments in Scan, not 1")).
Proof.
  apply (getDBs_bad_row {| h_opt := sampleAccess "src"; h_db := sampleDBWideRow |} emptyState
           {| rowsData := [["test"]; ["d"; "extra"]; ["e"]]; rowsCloseErr := None |}
           ["test"] ["d"; "extra"] [["e"]]); [reflexivity|reflexivity|done].
Defined.

Lemma scanTables_spec rows acc tables :
  scanTables rows acc = Ok tables ↔
  ∃ names, rows = (λ n, [n]) <$> names ∧ tables = acc ++ names.
Proof.
  revert acc. induction rows as [|row rows IH]; intros acc; simpl.
  - split.
    + intros [= <-]. exists []. by rewrite app_nil_r.
    + intros (names & Hn & ->). destruct names; [|done]. by rewrite app_nil_r.
  - destruct row as [|c [|c' row]]; simpl.
    + split; [done|]. intros ([|??] & ? & _); done.
    + rewrite IH. split.
      * intros (names & -> & ->). exists (c :: names). by rewrite <- app_assoc.
      * intros ([|n names] & Hn & ->); [done|]. injection Hn as -> ->.
        exists names. by rewrite <- app_assoc.
    + split; [done|]. intros ([|??] & ? & _); done.
Qed.

(** [getTables] succeeds exactly when the switch to the database and the
    query succeed and every row has one column; it then returns the rows'
    names in order, with the session switched to the database. *)
Theorem getTables_ok_iff (h : tidbHandler) (db : string) (st st' : state)
    (tables : list string) :
  getTables h db st = (Ok tables, st') ↔
  dbExec (h_db h) ("use " +:+ db) = None ∧
  (∃ rows, dbQuery (h_db h) db "show tables" = Ok rows ∧
           rowsData rows = (λ n, [n]) <$> tables) ∧
  st' = addEvents [EvQuery "show tables"]
          (withSession db (addEvents [EvExec ("use " +:+ db)] st)).
Proof.
  rewrite getTables_run. destruct (dbExec (h_db h) ("use " +:+ db)) as [err|].
  { split; [done|]. by intros [? _]. }
  cbv zeta. destruct (dbQuery (h_db h) db "show tables") as [rows|err].
  - split.
    + intros [= Hscan <-]. apply scanTables_spec in Hscan as (names & Hrows & ->).
      split; [done|]. split; [|done]. by exists rows.
    + intros (_ & (rows' & [= <-] & Hrows) & ->). f_equal.
      apply scanTables_spec. by exists tables.
  - split; [done|]. by intros (_ & (? & ? & _) & _).
Qed.

(** The set that [stringSliceToMap] builds holds exactly the strings of
    the slice; repeated strings count once, and the set is empty only for
    the empty slice. *)
Theorem stringSliceToMap_keys (strs : list string) :
  (∀ x, x ∈ stringSliceToMap strs ↔ x ∈ strs) ∧
  size (stringSliceToMap strs) ≤ length strs ∧
  (size (stringSliceToMap strs) = 0 ↔ strs = []).
Proof.
  split; [apply elem_of_stringSliceToMap|]. split.
  - unfold stringSliceToMap.
    assert (∀ acc : gset string,
              size (fold_left (λ m str, {[str]} ∪ m) strs acc) ≤ length strs + size acc) as H.
    { induction strs as [|s strs IH]; intros acc; simpl; [lia|].
      etrans; [apply IH|]. rewrite size_union_alt, size_singleton.
      assert (size (acc ∖ {[s]}) ≤ size acc) by (apply subseteq_size; set_solver). lia. }
    specialize (H ∅). rewrite size_empty in H. lia.
  - pose proof (size_stringSliceToMap strs) as Hs. split.
    + intros H0. rewrite H0 in Hs. simpl in Hs. symmetry in Hs.
      apply negb_false_iff, bool_decide_eq_true in Hs. done.
    + intros ->. done.
Qed.

End Enumeration.

(** ** Executing statements *)

Section Execute.
Context (h : tidbHandler).

Lemma Exec_trace sql st :
  trace (Exec (h_db h) sql st).2 = trace st ++ [EvExec sql].
Proof.
  rewrite Exec_run. destruct (dbExec (h_db h) sql); [done|].
  by destruct (HasPrefix sql "use ").
Qed.

Lemma Exec_result sql st :
  (Exec (h_db h) sql st).1 =
  match dbExec (h_db h) sql with Some err => Err err | None => Ok tt end.
Proof. rewrite Exec_run. by destruct (dbExec (h_db h) sql). Qed.

Lemma execute_cons sql sqls st :
  execute h (sql :: sqls) st =
  match Exec (h_db h) sql st with
  | (Ok _, st') => execute h sqls st'
  | (Err msg, st') => (Err ("execute `" +:+ sql +:+ "` error: " +:+ msg), st')
  end.
Proof.
  simpl. rewrite bind_run. unfold wrapErr.
  by destruct (Exec (h_db h) sql st) as [[[]|?] ?].
Qed.

Lemma execute_prefix_ok pre rest st :
  Forall (λ sql, dbExec (h_db h) sql = None) pre →
  ∃ st', execute h (pre ++ rest) st = execute h rest st' ∧
         trace st' = trace st ++ (EvExec <$> pre) ∧ fs st' = fs st.
Proof.
  revert st. induction pre as [|sql pre IH]; intros st Hpre.
  - exists st. by rewrite app_nil_r.
  - apply Forall_cons in Hpre as [Hsql Hpre].
    rewrite <- app_comm_cons, execute_cons.
    pose proof (Exec_trace sql st) as Ht. pose proof (Exec_result sql st) as Hr.
    destruct (onlyExecs_Exec (h_db h) sql st) as [Hfs _].
    rewrite Hsql in Hr.
    destruct (Exec (h_db h) sql st) as [[[]|?] st1]; [|done]. simpl in *.
    destruct (IH st1 Hpre) as (st' & Hrun & Htrace & Hfs').
    exists st'. split; [done|]. split; [|congruence].
    rewrite Htrace, Ht, <- app_assoc. done.
Qed.

(** [execute] returns without error exactly when no statement fails; it
    has then executed all of them, in order, and written no file. *)
Theorem execute_all (sqls : list string) (st : state) :
  ((execute h sqls st).1 = Ok tt ↔ Forall (λ sql, dbExec (h_db h) sql = None) sqls) ∧
  (Forall (λ sql, dbExec (h_db h) sql = None) sqls →
   trace (execute h sqls st).2 = trace st ++ (EvExec <$> sqls) ∧
   fs (execute h sqls st).2 = fs st).
Proof.
  split.
  - split.
    + revert st. induction sqls as [|sql sqls IH]; intros st Hok; [done|].
      rewrite execute_cons in Hok. pose proof (Exec_result sql st) as Hr.
      destruct (Exec (h_db h) sql st) as [[[]|?] st1]; [|done]. simpl in Hr.
      constructor; [by destruct (dbExec (h_db h) sql)|by eapply IH].
    + intros Hall. destruct (execute_prefix_ok sqls [] st Hall) as (st' & Hrun & _).
      rewrite app_nil_r in Hrun. by rewrite Hrun.
  - intros Hall. destruct (execute_prefix_ok sqls [] st Hall) as (st' & Hrun & Ht & Hfs).
    rewrite app_nil_r in Hrun. by rewrite Hrun.
Qed.

(** [execute] stops at the first statement that fails: it returns that
    statement's error with the statement quoted, and the statements after
    it are not executed. *)
Theorem execute_stops_at_failure (pre post : list string) (sql err : string) (st : state) :
  Forall (λ s, dbExec (h_db h) s = None) pre →
  dbExec (h_db h) sql = Some err →
  (execute h (pre ++ sql :: post) st).1 = Err ("execute `" +:+ sql +:+ "` error: " +:+ err) ∧
  trace (execute h (pre ++ sql :: post) st).2 = trace st ++ (EvExec <$> pre ++ [sql]).
Proof.
  intros Hpre Hsql.
  destruct (execute_prefix_ok pre (sql :: post) st Hpre) as (st' & -> & Ht & _).
  rewrite execute_cons.
  pose proof (Exec_trace sql st') as Ht'. pose proof (Exec_result sql st') as Hr.
  rewrite Hsql in Hr.
  destruct (Exec (h_db h) sql st') as [[[]|msg] st1]; [done|]. simpl in *.
  injection Hr as ->. split; [done|].
  rewrite Ht', Ht, fmap_app, <- app_assoc. done.
Qed.

End Execute.

Lemma execute_all_witness :
  trace (execute sampleHandler ["create table a (x int)"; "use d"] emptyState).2
  = trace emptyState ++ (EvExec <$> ["create table a (x int)"; "use d"]) ∧
  fs (execute sampleHandler ["create table a (x int)"; "use d"] emptyState).2
  = fs emptyState.
Proof.
  apply (proj2 (execute_all sampleHandler ["create table a (x int)"; "use d"] emptyState)).
  by repeat constructor.
Defined.

Lemma execute_stops_witness :
  (execute sampleHandlerCorrupt
     ["use d"; "load stats 'out/stats-d-t1.json'"; "drop table a"] emptyState).1
  = Err ("execute `" +:+ "load stats 'out/stats-d-t1.json'" +:+ "` error: "
         +:+ "invalid statistics file") ∧
  trace (execute sampleHandlerCorrupt
     ["use d"; "load stats 'out/stats-d-t1.json'"; "drop table a"] emptyState).2
  = trace emptyState ++ (EvExec <$> ["use d"] ++ ["load stats 'out/stats-d-t1.json'"]).
Proof.
  apply (execute_stops_at_failure sampleHandlerCorrupt ["use d"] ["drop table a"]
           "load stats 'out/stats-d-t1.json'" "invalid statistics file" emptyState).
  - by repeat constructor.
  - reflexivity.
Defined.

(** ** Connecting *)

Section Connect.
Context (e : environment).

Lemma is_space_not_upper c : Ascii.is_space c = true → lower_byte c = c.
Proof. by destruct c as [[] [] [] [] [] [] [] []]. Qed.

Lemma TrimSpace_blank d : allSpace d = true → TrimSpace (ToLower d) = "".
Proof.
  intros Hd. unfold TrimSpace.
  assert (trim_left (ToLower d) = "") as ->; [|done].
  induction d as [|c d IH]; [done|]. simpl in *.
  apply andb_true_iff in Hd as [Hc Hd].
  rewrite (is_space_not_upper c Hc), Hc. by apply IH.
Qed.

(** A default database name that is empty or white space only stands for
    [mysql]. *)
Theorem newDBHandler_blank_default (opt : tidbAccessOptions) (defaultDB : string)
    (st : state) :
  allSpace defaultDB = true →
  newDBHandler e opt defaultDB st = newDBHandler e opt "mysql" st.
Proof.
  intros Hd. unfold newDBHandler. rewrite (TrimSpace_blank _ Hd).
  by change (TrimSpace (ToLower "mysql")) with "mysql".
Qed.

(** [newDBHandler] returns a handler only after the ping succeeded; the
    handler holds the options it was given, and connecting writes no
    file, prints nothing and sends no statement. *)
Theorem newDBHandler_ok (opt : tidbAccessOptions) (defaultDB : string) (st st' : state)
    (hnd : tidbHandler) :
  newDBHandler e opt defaultDB st = (Ok hnd, st') →
  h_opt hnd = opt ∧ dbPing (h_db hnd) = None ∧
  fs st' = fs st ∧ stdout st' = stdout st ∧ trace st' = trace st.
Proof.
  unfold newDBHandler. cbv zeta. rewrite bind_run. unfold wrapErr at 1.
  rewrite liftResult_run.
  destruct (sqlOpen e _) as [db|?]; [|done].
  rewrite bind_run. unfold wrapErr, liftErr.
  destruct (dbPing db) eqn:Hping; [done|]. simpl.
  intros [= <- <-]. done.
Qed.

Lemma connectDB_inv opt defaultDB st r st' :
  connectDB e opt defaultDB st = (r, st') →
  match r with
  | Ok hnd => hp_opt hnd = opt ∧ hp_p hnd = None
  | Err _ => True
  end.
Proof.
  unfold connectDB. cbv zeta. rewrite bind_run. unfold wrapErr at 1.
  rewrite liftResult_run.
  destruct (sqlOpen e _) as [db|?]; [|by intros [= <- _]].
  rewrite bind_run. unfold wrapErr, liftErr.
  destruct (dbPing db) eqn:Hping; [by intros [= <- _]|]. simpl.
  intros [= <- _]. done.
Qed.

(** Without a version [startAndConnectDB] fails before any instance is
    started.  With a version the instance is started first and is left
    running whether or not the connection succeeds; a handler that is
    returned holds the process of that instance, the local address, the
    user [root] without password and the two ports of the instance,
    whatever address and credentials the caller gave. *)
Theorem startAndConnectDB_instance (startTiDB : string → nat * nat * nat)
    (opt : tidbAccessOptions) (defaultDB : string) (ist : istate) :
  (version opt = "" →
   startAndConnectDB startTiDB e opt defaultDB ist = (Err "no TiDB version", ist)) ∧
  (version opt ≠ "" →
   ∀ p port status, startTiDB (version opt) = (p, port, status) →
     running (startAndConnectDB startTiDB e opt defaultDB ist).2 = running ist ++ [p] ∧
     ∀ hnd, (startAndConnectDB startTiDB e opt defaultDB ist).1 = Ok hnd →
       hp_p hnd = Some p ∧
       hp_opt hnd = {| addr := "127.0.0.1"; statusPort := pretty status;
                       port := pretty port; user := "root"; password := "";
                       version := version opt |}).
Proof.
  unfold startAndConnectDB. split.
  - intros ->. done.
  - intros Hv p port status Hstart.
    destruct (String.eqb_spec (version opt) "") as [|_]; [done|].
    rewrite Hstart. cbv zeta. simpl.
    match goal with |- context [connectDB e ?o defaultDB ?s] =>
      pose proof (connectDB_inv o defaultDB s) as Hinv;
      destruct (connectDB e o defaultDB s) as [[db|?] st'] end.
    + split; [done|]. simpl. intros hnd [= <-].
      destruct (Hinv _ _ eq_refl) as [Hopt _]. simpl. by rewrite Hopt.
    + by split.
Qed.

End Connect.

Lemma newDBHandler_blank_witness :
  newDBHandler sampleEnv (sampleAccess "src") "  " emptyState
  = newDBHandler sampleEnv (sampleAccess "src") "mysql" emptyState.
Proof. apply (newDBHandler_blank_default sampleEnv (sampleAccess "src") "  "). reflexivity. Defined.

Lemma newDBHandler_ok_witness :
  h_opt sampleHandler = sampleAccess "src" ∧ dbPing (h_db sampleHandler) = None ∧
  fs emptyState = fs emptyState ∧ stdout emptyState = stdout emptyState ∧
  trace emptyState = trace emptyState.
Proof.
  apply (newDBHandler_ok sampleEnv (sampleAccess "src") "" emptyState emptyState
           sampleHandler).
  vm_compute. reflexivity.
Defined.

Lemma startAndConnectDB_witness :
  running (startAndConnectDB sampleStart sampleEnvDown (sampleAccessVersion "v4.0.0") ""
             {| base := emptyState; running := [] |}).2 = [] ++ [7].
Proof.
  apply (proj2 (startAndConnectDB_instance sampleEnvDown sampleStart
                  (sampleAccessVersion "v4.0.0") "" {| base := emptyState; running := [] |})
           ltac:(done) 7 4001 4002 eq_refl).
Defined.

(** ** The files of an export *)

Section ExportFiles.
Context (e : environment) (h : tidbHandler) (dir : string) (tm it : gset string).



Lemma exportDBSchemas_frame db st p :
  p ≠ schemaFile db dir →
  fs (exportDBSchemas e h db dir tm it st).2 !! p = fs st !! p.
Proof.
  intros Hp. rewrite exportDBSchemas_run.
  destruct (getTables_frame h db st) as [Hfs0 _].
  destruct (getTables h db st) as [[tables|?] st0]; [|simpl in *; congruence].
  destruct (exportDBSchemasLoop_frame h db tm it tables ∅ st0) as [Hfs1 _].
  destruct (exportDBSchemasLoop h db tm it tables ∅ st0) as [[m|?] st1];
    simpl in *; [|congruence].
  destruct (osOpenFileErr e _); [simpl; congruence|].
  destruct (osWriteErr e _).
  { simpl. rewrite lookup_insert_ne by done. congruence. }
  destruct (osCloseErr e _); simpl; rewrite !lookup_insert_ne by done; congruence.
Qed.

(** Schema export touches no file but the schema artifacts of the
    databases it is given, however it ends. *)
Lemma exportSchemas_frame (dbs : list string) (st : state) (p : string) :
  p ∉ schemaFiles dbs dir →
  fs (exportSchemas e h dbs dir tm it st).2 !! p = fs st !! p.
Proof.
  revert st. induction dbs as [|db dbs IH]; intros st Hp; [done|].
  unfold schemaFiles in Hp. rewrite fmap_cons in Hp.
  apply not_elem_of_cons in Hp as [Hne Hp].
  rewrite exportSchemas_cons.
  pose proof (exportDBSchemas_frame db st p Hne) as Hdb.
  destruct (exportDBSchemas e h db dir tm it st) as [[[]|?] st1]; [|done].
  rewrite IH by done. done.
Qed.

Lemma exportSchemas_keeps_DDL dbs st st' p :
  exportSchemas e h dbs dir tm it st = (Ok tt, st') →
  (∃ c, fs st !! p = Some c ∧ isDDL c) →
  ∃ c, fs st' !! p = Some c ∧ isDDL c.
Proof.
  revert st. induction dbs as [|db dbs IH]; intros st Hrun Hp.
  - simpl in Hrun. by injection Hrun as <-.
  - rewrite exportSchemas_cons in Hrun.
    destruct (exportDBSchemas e h db dir tm it st) as [[[]|?] st1] eqn:Hdb; [|done].
    apply (IH st1 Hrun).
    destruct (exportDBSchemas_ok e h db dir tm it st st1 Hdb) as (tables & m & _ & Hfs & _).
    rewrite Hfs. destruct (decide (schemaFile db dir = p)) as [->|Hne].
    + rewrite lookup_insert_eq. eexists. split; [done|]. by exists m.
    + by rewrite lookup_insert_ne.
Qed.

(** After a schema export that returned without error, every database it
    was given has its artifact, and the artifact holds a map of
    statements. *)
Theorem exportSchemas_ok_artifacts (dbs : list string) (st st' : state) (db : string) :
  exportSchemas e h dbs dir tm it st = (Ok tt, st') →
  db ∈ dbs →
  ∃ m, fs st' !! schemaFile db dir = Some (DDL m).
Proof.
  revert st. induction dbs as [|db0 dbs IH]; intros st Hrun Hin.
  - by apply elem_of_nil in Hin.
  - rewrite exportSchemas_cons in Hrun.
    destruct (exportDBSchemas e h db0 dir tm it st) as [[[]|?] st1] eqn:Hdb; [|done].
    apply elem_of_cons in Hin as [->|Hin]; [|by eapply IH].
    destruct (exportDBSchemas_ok e h db0 dir tm it st st1 Hdb) as (tables & m & _ & Hfs & _).
    destruct (exportSchemas_keeps_DDL dbs st1 st' (schemaFile db0 dir) Hrun)
      as (c & Hc & m' & ->).
    { rewrite Hfs, lookup_insert_eq. eexists. split; [done|]. by exists m. }
    by exists m'.
Qed.

Lemma exportTableStats_frame db t st p :
  p ≠ statsFile db t dir →
  fs (exportTableStats e h db t dir st).2 !! p = fs st !! p.
Proof.
  intros Hp. rewrite exportTableStats_run. cbv zeta.
  destruct (httpGet e _); [|done].
  destruct (osOpenFileErr e _); [done|].
  destruct (BodyReadErr _); [simpl; by rewrite lookup_insert_ne|].
  destruct (osWriteErr e _); simpl; by rewrite !lookup_insert_ne.
Qed.

Lemma exportStatsTables_frame db tables st p :
  (∀ t, t ∈ tables → p ≠ statsFile db t dir) →
  fs (exportStatsTables e h db dir tm it tables st).2 !! p = fs st !! p.
Proof.
  revert st. induction tables as [|t tables IH]; intros st Hp; [done|].
  rewrite exportStatsTables_cons.
  assert (∀ t', t' ∈ tables → p ≠ statsFile db t' dir) as Hp' by (intros; apply Hp; by right).
  destruct (keeps tm it t).
  - unfold wrapErr.
    pose proof (exportTableStats_frame db t st p (Hp t ltac:(left))) as Ht.
    destruct (exportTableStats e h db t dir st) as [[[]|?] st1]; [|done].
    rewrite IH by done. done.
  - rewrite IH by done. by destruct (bool_decide _).
Qed.

(** Statistics export touches no file but statistics artifacts of the
    databases it is given, however it ends. *)
Lemma exportStats_frame (dbs : list string) (st : state) (p : string) :
  (∀ db t, db ∈ dbs → p ≠ statsFile db t dir) →
  fs (exportStats e h dbs dir tm it st).2 !! p = fs st !! p.
Proof.
  revert st. induction dbs as [|db dbs IH]; intros st Hp; [done|].
  rewrite exportStats_cons.
  destruct (getTables_frame h db st) as [Hfs0 _].
  destruct (getTables h db st) as [[tables|?] st0]; [|simpl in *; congruence].
  pose proof (exportStatsTables_frame db tables st0 p) as Hts.
  destruct (exportStatsTables e h db dir tm it tables st0) as [[[]|?] st1]; simpl in *.
  - rewrite IH by (intros; apply Hp; by right).
    rewrite Hts by (intros; apply Hp; left). congruence.
  - rewrite Hts by (intros; apply Hp; left). congruence.
Qed.


End ExportFiles.

(** ** What an export does to the server *)

Section ExportEvents.
Context (e : environment).

Lemma extendsBy_refl P st : extendsBy P st st.
Proof. exists []. by rewrite app_nil_r. Qed.

Lemma extendsBy_trans P st1 st2 st3 :
  extendsBy P st1 st2 → extendsBy P st2 st3 → extendsBy P st1 st3.
Proof.
  intros (evs1 & H1 & HP1) (evs2 & H2 & HP2). exists (evs1 ++ evs2).
  split; [by rewrite H2, H1, app_assoc|by apply Forall_app].
Qed.

Lemma extendsBy_same_trace P st st' : trace st' = trace st → extendsBy P st st'.
Proof. intros H. exists []. by rewrite app_nil_r. Qed.

Lemma extendsBy_weaken (P Q : event → Prop) st st' :
  (∀ ev, P ev → Q ev) → extendsBy P st st' → extendsBy Q st st'.
Proof. intros HPQ (evs & H & HP). exists evs. split; [done|]. by eapply Forall_impl. Qed.

Lemma getTables_events h db st :
  extendsBy (exportEvent [db]) st (getTables h db st).2.
Proof.
  rewrite getTables_run.
  assert (exportEvent [db] (EvExec ("use " +:+ db))) as Huse.
  { exists db. split; [left|done]. }
  destruct (dbExec (h_db h) ("use " +:+ db)).
  - exists [EvExec ("use " +:+ db)]. split; [done|by repeat constructor].
  - cbv zeta. exists [EvExec ("use " +:+ db); EvQuery "show tables"].
    split; [|by repeat constructor].
    destruct (dbQuery (h_db h) db "show tables"); simpl; by rewrite <- app_assoc.
Qed.

Lemma exportDBSchemasLoop_events h db tm it tables m st :
  extendsBy (exportEvent []) st (exportDBSchemasLoop h db tm it tables m st).2.
Proof.
  revert m st. induction tables as [|t tables IH]; intros m st; [apply extendsBy_refl|].
  rewrite exportDBSchemasLoop_cons.
  assert (extendsBy (exportEvent []) st (addEvents [EvQuery (showCreateSQL db t)] st)) as Hq.
  { exists [EvQuery (showCreateSQL db t)]. split; [done|by repeat constructor]. }
  destruct (keeps tm it t).
  - destruct (showCreateTable h (session st) db t) as [[table createSQL]|?]; [|done].
    eapply extendsBy_trans; [exact Hq|apply IH].
  - eapply extendsBy_trans; [|apply IH].
    apply extendsBy_same_trace. by destruct (bool_decide _).
Qed.

Lemma exportDBSchemas_events h db dir tm it st :
  extendsBy (exportEvent [db]) st (exportDBSchemas e h db dir tm it st).2.
Proof.
  rewrite exportDBSchemas_run.
  pose proof (getTables_events h db st) as Hg.
  destruct (getTables h db st) as [[tables|?] st0]; [|done].
  pose proof (exportDBSchemasLoop_events h db tm it tables ∅ st0) as Hl.
  apply (extendsBy_weaken _ (exportEvent [db])) in Hl;
    [|intros [] Hev; simpl in *; try done; destruct Hev as (? & Hin & _);
      by apply elem_of_nil in Hin].
  destruct (exportDBSchemasLoop h db tm it tables ∅ st0) as [[m|?] st1];
    [|by eapply extendsBy_trans].
  assert (extendsBy (exportEvent [db]) st st1) as H1 by by eapply extendsBy_trans.
  cbv zeta. destruct (osOpenFileErr e _); [done|].
  destruct (osWriteErr e _); [by eapply extendsBy_trans; [exact H1|apply extendsBy_same_trace]|].
  destruct (osCloseErr e _);
    (eapply extendsBy_trans; [exact H1|by apply extendsBy_same_trace]).
Qed.

Lemma exportEvent_mono dbs dbs' ev :
  (∀ db, db ∈ dbs → db ∈ dbs') → exportEvent dbs ev → exportEvent dbs' ev.
Proof. intros Hsub. destruct ev; simpl; try done. intros (db & Hin & ->). eauto. Qed.

Lemma exportSchemas_events h dbs dir tm it st :
  extendsBy (exportEvent dbs) st (exportSchemas e h dbs dir tm it st).2.
Proof.
  revert st. induction dbs as [|db dbs IH]; intros st; [apply extendsBy_refl|].
  rewrite exportSchemas_cons.
  pose proof (exportDBSchemas_events h db dir tm it st) as Hdb.
  apply (extendsBy_weaken _ (exportEvent (db :: dbs))) in Hdb;
    [|intros ev; apply exportEvent_mono; intros ? ->%list_elem_of_singleton; left].
  destruct (exportDBSchemas e h db dir tm it st) as [[[]|?] st1]; [|done].
  eapply extendsBy_trans; [exact Hdb|].
  eapply extendsBy_weaken; [|apply IH].
  intros ev. apply exportEvent_mono. intros ??. by right.
Qed.

Lemma exportStatsTables_events h db dir tm it tables st :
  extendsBy (exportEvent []) st (exportStatsTables e h db dir tm it tables st).2.
Proof.
  revert st. induction tables as [|t tables IH]; intros st; [apply extendsBy_refl|].
  rewrite exportStatsTables_cons. destruct (keeps tm it t).
  - unfold wrapErr. pose proof (exportTableStats_trace e h dir db t st) as Ht.
    assert (extendsBy (exportEvent []) st (exportTableStats e h db t dir st).2) as Hx.
    { exists [EvGet (statsURL h db t)]. split; [done|by repeat constructor]. }
    destruct (exportTableStats e h db t dir st) as [[[]|?] st1]; [|done].
    eapply extendsBy_trans; [exact Hx|apply IH].
  - eapply extendsBy_trans; [|apply IH].
    apply extendsBy_same_trace. by destruct (bool_decide _).
Qed.

Lemma exportStats_events h dbs dir tm it st :
  extendsBy (exportEvent dbs) st (exportStats e h dbs dir tm it st).2.
Proof.
  revert st. induction dbs as [|db dbs IH]; intros st; [apply extendsBy_refl|].
  rewrite exportStats_cons.
  pose proof (getTables_events h db st) as Hg.
  apply (extendsBy_weaken _ (exportEvent (db :: dbs))) in Hg;
    [|intros ev; apply exportEvent_mono; intros ? ->%list_elem_of_singleton; left].
  destruct (getTables h db st) as [[tables|?] st0]; [|done].
  pose proof (exportStatsTables_events h db dir tm it tables st0) as Hts.
  apply (extendsBy_weaken _ (exportEvent (db :: dbs))) in Hts;
    [|intros ev; apply exportEvent_mono; intros ? Hin; by apply elem_of_nil in Hin].
  destruct (exportStatsTables e h db dir tm it tables st0) as [[[]|?] st1];
    [|by eapply extendsBy_trans].
  eapply extendsBy_trans; [exact Hg|]. eapply extendsBy_trans; [exact Hts|].
  eapply extendsBy_weaken; [|apply IH].
  intros ev. apply exportEvent_mono. intros ??. by right.
Qed.

Lemma newDBHandler_frame opt defaultDB st :
  fs (newDBHandler e opt defaultDB st).2 = fs st ∧
  trace (newDBHandler e opt defaultDB st).2 = trace st.
Proof.
  assert (∀ r st', newDBHandler e opt defaultDB st = (r, st') →
                   fs st' = fs st ∧ trace st' = trace st) as H.
  { intros r st'. unfold newDBHandler. cbv zeta. rewrite bind_run. unfold wrapErr at 1.
    rewrite liftResult_run.
    destruct (sqlOpen e _) as [db|?]; [|by intros [= _ <-]].
    rewrite bind_run. unfold wrapErr, liftErr.
    destruct (dbPing db); by intros [= _ <-]. }
  destruct (newDBHandler e opt defaultDB st) as [r st'] eqn:Hr. by apply (H r).
Qed.

(** The export half of a run is read-only on the source server: apart
    from queries and fetches, the only statements it sends switch the
    session to one of the requested databases; it registers no file. *)
Theorem runExport_read_only (opt : transportOptions) (dir : string) (st : state) :
  extendsBy (exportEvent (o_dbs opt)) st (runExport e opt dir st).2.
Proof.
  rewrite runExport_run. cbv zeta.
  destruct (newDBHandler_frame (o_src opt) "" (addLine beginExportLine st)) as [_ Ht].
  assert (extendsBy (exportEvent (o_dbs opt)) st
            (newDBHandler e (o_src opt) "" (addLine beginExportLine st)).2) as H0
    by by apply extendsBy_same_trace.
  destruct (newDBHandler e (o_src opt) "" (addLine beginExportLine st)) as [[src|?] st0];
    [|done].
  match goal with |- context [exportSchemas e src ?dbs dir ?tm ?it st0] =>
    pose proof (exportSchemas_events src dbs dir tm it st0) as H1;
    destruct (exportSchemas e src dbs dir tm it st0) as [[[]|?] st1] end;
    [|by eapply extendsBy_trans].
  match goal with |- context [exportStats e src ?dbs dir ?tm ?it st1] =>
    pose proof (exportStats_events src dbs dir tm it st1) as H2;
    destruct (exportStats e src dbs dir tm it st1) as [[[]|?] st2] end.
  - eapply extendsBy_trans; [exact H0|]. eapply extendsBy_trans; [exact H1|].
    eapply extendsBy_trans; [exact H2|]. by apply extendsBy_same_trace.
  - eapply extendsBy_trans; [exact H0|]. by eapply extendsBy_trans.
Qed.

End ExportEvents.

(** ** What an import does *)

Section ImportEffects.
Context (e : environment).

Lemma importStatements_ok h path sqls st st' :
  importStatements h path sqls st = (Ok tt, st') →
  trace st' = trace st ++ ((λ sql, EvExec (TrimSpace sql)) <$> sqls).
Proof.
  revert st. induction sqls as [|sql sqls IH]; intros st.
  - simpl. intros [= <-]. by rewrite app_nil_r.
  - simpl. rewrite bind_run. unfold wrapErr.
    pose proof (Exec_trace h (TrimSpace sql) st) as Ht.
    destruct (Exec (h_db h) (TrimSpace sql) st) as [[[]|?] st1]; [|done].
    intros ->%IH. simpl in Ht. by rewrite Ht, <- app_assoc.
Qed.

Lemma importSchemas_ok_trace h dbs dir st st' :
  importSchemas h dbs dir st = (Ok tt, st') →
  trace st' = trace st ++ (dbs ≫= importEvents (fs st) dir) ∧
  ∀ db, db ∈ dbs → ∃ m, fs st !! schemaFile db dir = Some (DDL m).
Proof.
  revert st. induction dbs as [|db dbs IH]; intros st.
  - simpl. intros [= <-]. split; [by rewrite app_nil_r|].
    intros db Hin. by apply elem_of_nil in Hin.
  - rewrite importSchemas_cons. cbv zeta.
    destruct (dbExec (h_db h) (createDBSQL db)); [done|].
    destruct (dbExec (h_db h) ("use " +:+ db)); [done|].
    destruct (fs st !! schemaFile db dir) as [content|] eqn:Hfile; [|done].
    destruct content as [b|m]; [done|]. simpl.
    match goal with |- context [importStatements ?a ?b ?c ?d] =>
      pose proof (importStatements_onlyExecs a b c d) as [Hfs _];
      destruct (importStatements a b c d) as [[[]|?] st3] eqn:Hst end; [|done].
    apply importStatements_ok in Hst. simpl in Hst, Hfs.
    intros [Ht Hall]%IH. simpl in Ht, Hall. rewrite Hfs in Ht, Hall. split.
    + rewrite Ht, Hst. csimpl. unfold importEvents at 2. rewrite Hfile.
      rewrite <- !app_assoc. simpl. by rewrite <- list_fmap_compose.
    + intros db' [->|Hin]%elem_of_cons; [by exists m|by apply Hall].
Qed.

(** Over artifacts that are maps of plain text: after a schema import
    that returned without error, every database it was given was created
    and switched to, and every statement of its artifact was executed
    with the white space around it removed. *)
Theorem importSchemas_ok_statements (h : tidbHandler) (dbs : list string) (dir : string)
    (st st' : state) (db : string) (m : gmap string string) :
  asciiArtifacts (fs st) dbs dir →
  importSchemas h dbs dir st = (Ok tt, st') →
  db ∈ dbs →
  fs st !! schemaFile db dir = Some (DDL m) →
  EvExec (createDBSQL db) ∈ trace st' ∧
  EvExec ("use " +:+ db) ∈ trace st' ∧
  ∀ table sql, m !! table = Some sql → EvExec (TrimSpace sql) ∈ trace st'.
Proof.
  intros _ Hrun Hin Hm. destruct (importSchemas_ok_trace h dbs dir st st' Hrun) as [Ht _].
  assert (∀ ev, ev ∈ importEvents (fs st) dir db → ev ∈ trace st') as Hev.
  { intros ev Hev. rewrite Ht. apply elem_of_app. right.
    apply list_elem_of_bind. by exists db. }
  unfold importEvents in Hev. rewrite Hm in Hev.
  split; [apply Hev; left|]. split; [apply Hev; right; left|].
  intros table sql Hsql. apply Hev. do 2 right.
  apply list_elem_of_fmap. exists (table, sql). split; [done|].
  by apply elem_of_map_to_list.
Qed.

Lemma importStatsFiles_ok h db files st st' :
  importStatsFiles h db files st = (Ok tt, st') →
  trace st' = trace st ++ (files ≫= loadEvents).
Proof.
  revert st. induction files as [|f files IH]; intros st.
  - simpl. intros [= <-]. by rewrite app_nil_r.
  - rewrite importStatsFiles_cons.
    destruct (dbExec (h_db h) (loadStatsSQL f)); [done|].
    intros ->%IH. simpl. by rewrite <- app_assoc.
Qed.

(** After a statistics import that returned without error, the artifacts
    of each database were listed, and each of them was registered as a
    local file just before the statement that loads it, in the order of
    the databases and of the listing; nothing else was sent. *)
Theorem importStats_ok_trace (h : tidbHandler) (dbs : list string) (dir : string)
    (st st' : state) :
  importStats e h dbs dir st = (Ok tt, st') →
  ∃ listings,
    Forall2 (λ db files, filepathGlob e (statsPattern db dir) = Ok files) dbs listings ∧
    trace st' = trace st ++ (mjoin listings ≫= loadEvents).
Proof.
  revert st. induction dbs as [|db dbs IH]; intros st.
  - simpl. intros [= <-]. exists []. split; [constructor|]. by rewrite app_nil_r.
  - rewrite importStats_cons.
    destruct (filepathGlob e (statsPattern db dir)) as [files|?] eqn:Hglob; [|done].
    destruct (importStatsFiles h db files st) as [[[]|?] st1] eqn:Hfiles; [|done].
    apply importStatsFiles_ok in Hfiles.
    intros (listings & Hall & Ht)%IH. exists (files :: listings).
    split; [by constructor|].
    rewrite Ht, Hfiles. csimpl. by rewrite bind_app, <- app_assoc.
Qed.

Lemma importStats_frame h dbs dir st : fs (importStats e h dbs dir st).2 = fs st.
Proof.
  revert st. induction dbs as [|db dbs IH]; intros st; [done|].
  rewrite importStats_cons.
  destruct (filepathGlob e (statsPattern db dir)) as [files|?]; [|done].
  assert (fs (importStatsFiles h db files st).2 = fs st) as Hfiles.
  { clear IH. revert st. induction files as [|f files IHf]; intros st; [done|].
    rewrite importStatsFiles_cons.
    destruct (dbExec (h_db h) (loadStatsSQL f)); [done|]. by rewrite IHf. }
  destruct (importStatsFiles h db files st) as [[[]|?] st1]; [|done].
  rewrite IH. done.
Qed.

(** The import half of a run writes no file, however it ends. *)
Theorem runImport_writes_no_file (opt : transportOptions) (dir : string) (st : state) :
  fs (runImport e opt dir st).2 = fs st.
Proof.
  rewrite runImport_run.
  destruct (newDBHandler_frame e (o_dst opt) "" (addLine beginImportLine st)) as [H0 _].
  destruct (newDBHandler e (o_dst opt) "" (addLine beginImportLine st)) as [[dst|?] st0];
    [|done].
  destruct (importSchemas_onlyExecs dst (o_dbs opt) dir st0) as [H1 _].
  destruct (importSchemas dst (o_dbs opt) dir st0) as [[[]|?] st1];
    [|simpl in *; congruence].
  pose proof (importStats_frame dst (o_dbs opt) dir st1) as H2.
  destruct (importStats e dst (o_dbs opt) dir st1) as [[[]|?] st2];
    simpl in *; congruence.
Qed.

End ImportEffects.

(** ** More on the directory parse and the artifact paths *)

Section ParseMore.

Lemma walkFn_decode dbTables entry :
  walkFn dbTables entry =
  match decodeEntry entry with
  | Some (f0, f1) => <[f0 := (dbTables !!! f0) ++ [f1]]> dbTables
  | None => dbTables
  end.
Proof.
  destruct entry as [fpath isDir]. rewrite walkFn_run. unfold decodeEntry. simpl.
  destruct isDir; [done|].
  by destruct (nameFields (GoPath.Base fpath)) as [|f0 [|f1 [|f2 fields]]].
Qed.

Lemma fold_walkFn_lookup walk (acc : gmap string (list string)) db :
  (fold_left walkFn walk acc : gmap string (list string)) !!! db =
  acc !!! db ++ (filter (λ p, p.1 = db) (omap decodeEntry walk)).*2.
Proof.
  revert acc. induction walk as [|entry walk IH]; intros acc.
  - simpl. by rewrite app_nil_r.
  - cbn [fold_left]. rewrite IH, walkFn_decode. simpl.
    destruct (decodeEntry entry) as [[f0 f1]|]; [|done].
    rewrite filter_cons. simpl. destruct (decide (f0 = db)) as [->|Hne].
    + rewrite lookup_total_insert_eq, <- app_assoc. done.
    + by rewrite lookup_total_insert_ne.
Qed.

(** The tables that the parse lists for a database are the second fields
    of the visited files whose first field is the database, in the order
    of the walk and as often as they occur. *)
Theorem parseDBTables_in_walk_order (walk : list (string * bool)) (db : string) :
  ((parseDBTables walk).1 : gmap string (list string)) !!! db =
  (filter (λ p, p.1 = db) (omap decodeEntry walk)).*2.
Proof.
  unfold parseDBTables. cbn [fst]. by rewrite fold_walkFn_lookup, lookup_total_empty.
Qed.

(** Parsing two walks one after the other appends, database by database,
    what each of them gives. *)
Theorem parseDBTables_app (walk1 walk2 : list (string * bool)) (db : string) :
  ((parseDBTables (walk1 ++ walk2)).1 : gmap string (list string)) !!! db =
  ((parseDBTables walk1).1 : gmap string (list string)) !!! db ++
  ((parseDBTables walk2).1 : gmap string (list string)) !!! db.
Proof.
  unfold parseDBTables. cbn [fst].
  rewrite !fold_walkFn_lookup, !lookup_total_empty. simpl.
  by rewrite omap_app, filter_app, fmap_app.
Qed.

Lemma fold_walkFn_nonempty walk (acc : gmap string (list string)) :
  map_Forall (λ _ l, l ≠ []) acc →
  map_Forall (λ _ l, l ≠ []) (fold_left walkFn walk acc).
Proof.
  revert acc. induction walk as [|entry walk IH]; intros acc Hacc; [done|].
  cbn [fold_left]. apply IH. rewrite walkFn_decode.
  destruct (decodeEntry entry) as [[f0 f1]|]; [|done].
  apply map_Forall_insert_2; [|done]. by destruct (acc !!! f0).
Qed.

(** No database of the parse result has an empty table list. *)
Theorem parseDBTables_no_empty_list (walk : list (string * bool)) (db : string)
    (tables : list string) :
  (parseDBTables walk).1 !! db = Some tables → tables ≠ [].
Proof.
  intros H. eapply (fold_walkFn_nonempty walk ∅); [|exact H]. apply map_Forall_empty.
Qed.

Lemma parseDBTables_no_empty_list_witness : ["t1"] ≠ [].
Proof.
  apply (parseDBTables_no_empty_list [("out/stats-d-t1.json", false)] "d" ["t1"]).
  vm_compute. reflexivity.
Defined.

Lemma nameFields_plain_stats db table dir :
  has_byte "-" db = false → has_byte "-" table = false →
  has_byte "/" db = false → has_byte "/" table = false →
  nameFields (GoPath.Base (statsPath db table dir)) = [db; table].
Proof.
  intros Hdb Htable Hdb' Htable'. unfold statsPath.
  rewrite (Base_Join_artifact dir "tats-" db table ".json" "s") by done.
  apply nameFields_artifactName. split; [by right|done].
Qed.

Lemma nameFields_plain_schema db table dir :
  has_byte "-" db = false → has_byte "-" table = false →
  has_byte "/" db = false → has_byte "/" table = false →
  nameFields (GoPath.Base (schemaPath db table dir)) = [db; table].
Proof.
  intros Hdb Htable Hdb' Htable'. unfold schemaPath.
  rewrite (Base_Join_artifact dir "chema-" db table ".sql" "s") by done.
  apply nameFields_artifactName. split; [by left|done].
Qed.

(** A table that has both a schema file and a statistics file in the
    directory is listed twice. *)
Theorem parseDBTables_both_kinds (db table dir : string) :
  has_byte "-" db = false → has_byte "-" table = false →
  has_byte "/" db = false → has_byte "/" table = false →
  (parseDBTables [(schemaPath db table dir, false); (statsPath db table dir, false)]).1
  = {[db := [table; table]]}.
Proof.
  intros Hdb Htable Hdb' Htable'. unfold parseDBTables. cbn [fst fold_left].
  rewrite !walkFn_run, nameFields_plain_schema, lookup_total_empty by done.
  rewrite nameFields_plain_stats by done.
  rewrite lookup_total_insert_eq, insert_insert_eq. by rewrite insert_empty.
Qed.

Lemma parseDBTables_both_kinds_witness :
  (parseDBTables [(schemaPath "d" "t1" "out", false); (statsPath "d" "t1" "out", false)]).1
  = {["d" := ["t1"; "t1"]]}.
Proof. apply (parseDBTables_both_kinds "d" "t1" "out"); reflexivity. Defined.

(** In one directory two pairs of plain names never share an artifact
    path, and a schema path is never a statistics path. *)
Theorem artifact_paths_distinct (db table db' table' dir : string) :
  has_byte "-" db = false → has_byte "-" table = false →
  has_byte "/" db = false → has_byte "/" table = false →
  has_byte "-" db' = false → has_byte "-" table' = false →
  has_byte "/" db' = false → has_byte "/" table' = false →
  (statsPath db table dir = statsPath db' table' dir → db = db' ∧ table = table') ∧
  (schemaPath db table dir = schemaPath db' table' dir → db = db' ∧ table = table') ∧
  statsPath db table dir ≠ schemaPath db' table' dir.
Proof.
  intros Hd Ht Hd' Ht' He Hf He' Hf'.
  pose proof (nameFields_plain_stats db table dir Hd Ht Hd' Ht') as H1.
  pose proof (nameFields_plain_stats db' table' dir He Hf He' Hf') as H2.
  pose proof (nameFields_plain_schema db table dir Hd Ht Hd' Ht') as H3.
  pose proof (nameFields_plain_schema db' table' dir He Hf He' Hf') as H4.
  split; [|split].
  - intros Heq. rewrite Heq, H2 in H1. by injection H1 as -> ->.
  - intros Heq. rewrite Heq, H4 in H3. by injection H3 as -> ->.
  - intros Heq.
    assert (GoPath.Base (statsPath db table dir)
            = "stats-" +:+ db +:+ "-" +:+ table +:+ ".json") as Hb1
      by (unfold statsPath; by rewrite (Base_Join_artifact dir "tats-" db table ".json" "s")).
    assert (GoPath.Base (schemaPath db' table' dir)
            = "schema-" +:+ db' +:+ "-" +:+ table' +:+ ".sql") as Hb2
      by (unfold schemaPath;
          by rewrite (Base_Join_artifact dir "chema-" db' table' ".sql" "s")).
    rewrite Heq, Hb2 in Hb1. done.
Qed.

Lemma artifact_paths_distinct_witness :
  statsPath "d" "t1" "out" ≠ schemaPath "d" "t1" "out".
Proof.
  apply (proj2 (proj2 (artifact_paths_distinct "d" "t1" "d" "t1" "out"
    eq_refl eq_refl eq_refl eq_refl eq_refl eq_refl eq_refl eq_refl))).
Defined.

End ParseMore.

(** ** The default directory *)

Section DefaultDirectory.

Lemma ReplaceAll_no_old s old new : old ≠ new → has_byte old (ReplaceAll s old new) = false.
Proof.
  intros Hne. induction s as [|c s IH]; [done|]. simpl. rewrite IH, orb_false_r.
  destruct (Ascii.eqb_spec c old) as [->|Hc]; by apply Ascii.eqb_neq.
Qed.

Lemma ReplaceAll_length s old new :
  String.length (ReplaceAll s old new) = String.length s.
Proof. induction s as [|c s IH]; [done|]. simpl. by rewrite IH. Qed.

Lemma ReplaceAll_other s old new c :
  c ≠ old → c ≠ new → has_byte c (ReplaceAll s old new) = has_byte c s.
Proof.
  intros Hold Hnew. induction s as [|d s IH]; [done|]. simpl. rewrite IH. f_equal.
  destruct (Ascii.eqb_spec d old) as [->|Hd]; [|done].
  destruct (Ascii.eqb_spec new c) as [->|_]; [done|].
  by destruct (Ascii.eqb_spec old c) as [->|_].
Qed.

Lemma ReplaceAll_dots s :
  ReplaceAll s ":" "-" ≠ "" ∧ ReplaceAll s ":" "-" ≠ "." ∧ ReplaceAll s ":" "-" ≠ ".." ↔
  s ≠ "" ∧ s ≠ "." ∧ s ≠ "..".
Proof.
  destruct s as [|c [|c' [|c'' s]]]; simpl; [naive_solver| | |naive_solver].
  - destruct (Ascii.eqb_spec c ":") as [->|Hc]; naive_solver.
  - destruct (Ascii.eqb_spec c ":") as [->|Hc], (Ascii.eqb_spec c' ":") as [->|Hc'];
      naive_solver.
Qed.

(** The last element of the default directory is the time stamp with
    every colon replaced by a dash: it has the length of the time stamp
    and holds no colon. *)
Theorem tmpPathDir_last_element (e : environment) :
  timeNowRFC3339 e ≠ "" → timeNowRFC3339 e ≠ "." → timeNowRFC3339 e ≠ ".." →
  has_byte "/" (timeNowRFC3339 e) = false →
  GoPath.Base (tmpPathDir e) = ReplaceAll (timeNowRFC3339 e) ":" "-" ∧
  has_byte ":" (GoPath.Base (tmpPathDir e)) = false ∧
  String.length (GoPath.Base (tmpPathDir e)) = String.length (timeNowRFC3339 e).
Proof.
  intros Hne Hdot Hdotdot Hslash.
  set (t := ReplaceAll (timeNowRFC3339 e) ":" "-").
  destruct (proj2 (ReplaceAll_dots (timeNowRFC3339 e))) as (Ht1 & Ht2 & Ht3); [done|].
  fold t in Ht1, Ht2, Ht3.
  assert (has_byte "/" t = false) as Ht4 by (unfold t; by rewrite ReplaceAll_other).
  assert (GoPath.Base (tmpPathDir e) = t) as Hbase.
  { unfold tmpPathDir. cbv zeta. fold t. unfold GoPath.Join.
    assert (∃ x, GoPath.join_buf "" [osTempDir e; "plan-change-capturer"; t]
                 = x +:+ String "/" t) as [x Hx].
    { destruct (osTempDir e) as [|c tmp]; simpl.
      - exists "plan-change-capturer". by rewrite app_assoc_s.
      - exists (String c tmp +:+ "/" +:+ "plan-change-capturer").
        by rewrite !app_assoc_s. }
    rewrite Hx.
    assert (forallb (λ s, String.eqb s "") [osTempDir e; "plan-change-capturer"; t] = false)
      as -> by (simpl; by rewrite andb_false_r).
    destruct (Clean_name x t) as (x' & Hx' & ->); try done.
    by apply Base_name. }
  rewrite Hbase. split; [done|]. split.
  - by apply ReplaceAll_no_old.
  - apply ReplaceAll_length.
Qed.

Lemma tmpPathDir_last_element_witness :
  GoPath.Base (tmpPathDir sampleEnv) = ReplaceAll (timeNowRFC3339 sampleEnv) ":" "-" ∧
  has_byte ":" (GoPath.Base (tmpPathDir sampleEnv)) = false ∧
  String.length (GoPath.Base (tmpPathDir sampleEnv))
  = String.length (timeNowRFC3339 sampleEnv).
Proof. apply (tmpPathDir_last_element sampleEnv); done. Defined.

End DefaultDirectory.

(** ** The two kinds of artifact never share a file *)

Section Kinds.
Context (e : environment) (h : tidbHandler) (dir : string) (tm it : gset string).

Lemma last_component q :
  ∃ x l, has_byte "/" l = false ∧ (q = l ∨ q = x +:+ String "/" l).
Proof.
  induction q as [|c q (x & l & Hl & Hq)].
  - exists "", "". split; [done|by left].
  - destruct Hq as [->| ->].
    + destruct (Ascii.eqb_spec c "/") as [->|Hc].
      * exists "", l. split; [done|]. right. by rewrite app_empty_l.
      * exists "", (String c l). split; [|by left]. simpl. rewrite Hl, orb_false_r.
        by apply Ascii.eqb_neq.
    + exists (String c x), l. split; [done|]. right. by rewrite app_cons.
Qed.

Lemma long_name_no_dots l suf :
  2 < String.length suf → l +:+ suf ≠ "" ∧ l +:+ suf ≠ "." ∧ l +:+ suf ≠ "..".
Proof.
  intros Hlen. repeat split; intros H; apply (f_equal String.length) in H;
    rewrite length_app in H; simpl in H; lia.
Qed.

(** A joined path ends as the name that was joined ends, when that end
    is free of slashes and longer than two bytes. *)
Lemma Join_suffix d q suf :
  2 < String.length suf → has_byte "/" suf = false →
  HasSuffix (GoPath.Join [d; q +:+ suf]) suf = true.
Proof.
  intros Hlen Hsuf.
  destruct (last_component q) as (x & l & Hl & Hq).
  destruct (long_name_no_dots l suf Hlen) as (Hne & Hdot & Hdotdot).
  assert (has_byte "/" (l +:+ suf) = false) as Hslash by by rewrite has_byte_app, Hl, Hsuf.
  assert (q +:+ suf ≠ "") as Hq0.
  { intros H0. apply (f_equal String.length) in H0. rewrite length_app in H0.
    simpl in H0. lia. }
  assert (∀ y, ∃ x', GoPath.Clean (y +:+ String "/" (l +:+ suf)) = (x' +:+ l) +:+ suf) as Hc.
  { intros y. destruct (Clean_name y (l +:+ suf)) as (x' & _ & ->); try done.
    exists x'. by rewrite app_assoc_s. }
  unfold GoPath.Join. simpl.
  destruct (String.eqb_spec (q +:+ suf) "") as [|_]; [done|]. rewrite andb_false_r.
  destruct d as [|c d]; simpl.
  - destruct (String.eqb_spec (q +:+ suf) "") as [|_]; [done|]. simpl.
    rewrite app_empty_l. destruct Hq as [->| ->].
    + rewrite Clean_plain_name by done. apply HasSuffix_app.
    + rewrite app_assoc_s, app_cons. destruct (Hc x) as [x' Hx'].
      change (String "/" l +:+ suf) with (String "/" (l +:+ suf)).
      rewrite Hx'. apply HasSuffix_app.
  - rewrite app_empty_l. destruct Hq as [->| ->].
    + destruct (Hc (String c d)) as [x' Hx'].
      rewrite app_assoc_s. change ("/" +:+ l +:+ suf) with (String "/" (l +:+ suf)).
      rewrite Hx'. apply HasSuffix_app.
    + destruct (Hc (String c d +:+ "/" +:+ x)) as [x' Hx'].
      rewrite !app_assoc_s in *.
      change ("/" +:+ x +:+ String "/" l +:+ suf)
        with ("/" +:+ x +:+ String "/" (l +:+ suf)).
      rewrite Hx'. rewrite <- app_assoc_s. apply HasSuffix_app.
Qed.

Lemma app_last_byte x y c d : x +:+ String c "" = y +:+ String d "" → c = d.
Proof.
  revert y. induction x as [|a x IH]; intros [|b y] H.
  - by injection H.
  - rewrite app_empty_l, app_cons in H. injection H as _ H. by destruct y.
  - rewrite app_empty_l, app_cons in H. injection H as _ H. by destruct x.
  - rewrite !app_cons in H. injection H as _ H. by apply (IH y).
Qed.

Lemma sql_json_apart p : HasSuffix p ".sql" = true → HasSuffix p ".json" = true → False.
Proof.
  intros [x ->]%HasSuffix_inv [y Hy]%HasSuffix_inv.
  change ".sql" with (".sq" +:+ String "l" "") in Hy.
  change ".json" with (".jso" +:+ String "n" "") in Hy.
  rewrite <- !app_assoc_s in Hy. by apply app_last_byte in Hy.
Qed.

Lemma schemaFile_sql db : HasSuffix (schemaFile db dir) ".sql" = true.
Proof.
  unfold schemaFile. rewrite <- (app_assoc_s "schema-" db ".sql").
  apply Join_suffix; [simpl; lia|done].
Qed.

Lemma statsFile_json db t : HasSuffix (statsFile db t dir) ".json" = true.
Proof.
  unfold statsFile.
  rewrite <- (app_assoc_s db "-" (t +:+ ".json")), <- (app_assoc_s (db +:+ "-") t ".json"),
    <- (app_assoc_s "stats-" ((db +:+ "-") +:+ t) ".json").
  apply Join_suffix; [simpl; lia|done].
Qed.

(** Statistics export never touches the schema artifact of any database,
    whatever the names of the databases and tables and however it ends. *)
Theorem exportStats_keeps_schema_artifacts (dbs : list string) (st : state) (db' : string) :
  fs (exportStats e h dbs dir tm it st).2 !! schemaFile db' dir
  = fs st !! schemaFile db' dir.
Proof.
  apply exportStats_frame. intros db t _ Heq.
  apply (sql_json_apart (schemaFile db' dir)); [apply schemaFile_sql|].
  rewrite Heq. apply statsFile_json.
Qed.

(** Schema export never touches the statistics artifact of any table,
    whatever the names and however it ends. *)
Theorem exportSchemas_keeps_stats_artifacts (dbs : list string) (st : state)
    (db' t' : string) :
  fs (exportSchemas e h dbs dir tm it st).2 !! statsFile db' t' dir
  = fs st !! statsFile db' t' dir.
Proof.
  apply exportSchemas_frame. unfold schemaFiles.
  intros (db & Heq & _)%list_elem_of_fmap.
  apply (sql_json_apart (schemaFile db dir)); [apply schemaFile_sql|].
  rewrite <- Heq. apply statsFile_json.
Qed.

End Kinds.

(** ** Closed examples of the properties above *)


Lemma exportSchemas_ok_artifacts_witness :
  ∃ m, fs (exportSchemas sampleEnv sampleHandler ["d"] "out" (stringSliceToMap [])
             (stringSliceToMap []) emptyState).2
         !! schemaFile "d" "out" = Some (DDL m).
Proof.
  apply (exportSchemas_ok_artifacts sampleEnv sampleHandler "out" (stringSliceToMap [])
           (stringSliceToMap []) ["d"] emptyState).
  - vm_compute. reflexivity.
  - apply list_elem_of_here.
Defined.


Lemma importSchemas_ok_statements_witness :
  EvExec (createDBSQL "d") ∈ trace (importSchemas sampleHandler ["d"] "out" snapshotState).2 ∧
  EvExec ("use " +:+ "d") ∈ trace (importSchemas sampleHandler ["d"] "out" snapshotState).2 ∧
  ∀ table sql,
    ({["t1" := "create table t1 (a int)"]} : gmap string string) !! table = Some sql →
    EvExec (TrimSpace sql) ∈ trace (importSchemas sampleHandler ["d"] "out" snapshotState).2.
Proof.
  apply (importSchemas_ok_statements sampleHandler ["d"] "out" snapshotState).
  - intros db Hin. apply list_elem_of_singleton in Hin as ->.
    exists {["t1" := "create table t1 (a int)"]}. split; [reflexivity|].
    by apply map_Forall_singleton.
  - vm_compute. reflexivity.
  - apply list_elem_of_here.
  - reflexivity.
Defined.

Lemma importStats_ok_trace_witness :
  ∃ listings,
    Forall2 (λ db files, filepathGlob sampleEnvCorrupt (statsPattern db "out") = Ok files)
      ["d"] listings ∧
    trace (importStats sampleEnvCorrupt sampleHandler ["d"] "out" snapshotState).2
    = trace snapshotState ++ (mjoin listings ≫= loadEvents).
Proof.
  apply (importStats_ok_trace sampleEnvCorrupt sampleHandler ["d"] "out" snapshotState).
  vm_compute. reflexivity.
Defined.

(** ** The filter with entries in lower case *)

Section LowerCaseEntries.
Context (e : environment) (h : tidbHandler) (db dir : string).

(** Over table names and entries in plain text: when every entry of the
    include and the exclude list is in lower case, statistics export
    fetches exactly the tables that, up to letter case, are in the include
    list (or any table, when that list is empty) and are not in the
    exclude list. *)
Theorem exportStatsTables_lower_case_entries (include exclude tables : list string)
    (st st' : state) :
  Forall (λ x, isASCII x = true) (include ++ exclude ++ tables) →
  Forall (λ x, ToLower x = x) include →
  Forall (λ x, ToLower x = x) exclude →
  exportStatsTables e h db dir (stringSliceToMap include) (stringSliceToMap exclude)
    tables st = (Ok tt, st') →
  ∃ fetched,
    trace st' = trace st ++ ((λ t, EvGet (statsURL h db t)) <$> fetched) ∧
    ∀ t, t ∈ fetched ↔
         t ∈ tables ∧
         (include = [] ∨ ∃ x, x ∈ include ∧ CaseEq t x) ∧
         ¬ ∃ x, x ∈ exclude ∧ CaseEq t x.
Proof.
  intros _ Hinc Hexc Hrun.
  destruct (exportStatsTables_ok_trace e h dir _ _ db tables st st' Hrun) as [Ht _].
  eexists. split; [exact Ht|].
  intros t. rewrite list_elem_of_filter, keeps_passes.
  rewrite (passes_case_insensitive include exclude t Hinc Hexc). naive_solver.
Qed.

End LowerCaseEntries.

Lemma exportStatsTables_lower_case_entries_witness :
  ∃ fetched,
    trace (exportStatsTables sampleEnv sampleHandler "d" "out" (stringSliceToMap ["t1"; "t3"])
             (stringSliceToMap ["t3"]) ["T1"; "t2"; "t3"] emptyState).2
    = trace emptyState ++ ((λ t, EvGet (statsURL sampleHandler "d" t)) <$> fetched) ∧
    ∀ t, t ∈ fetched ↔
         t ∈ ["T1"; "t2"; "t3"] ∧
         (["t1"; "t3"] = [] ∨ ∃ x, x ∈ ["t1"; "t3"] ∧ CaseEq t x) ∧
         ¬ ∃ x, x ∈ ["t3"] ∧ CaseEq t x.
Proof.
  apply (exportStatsTables_lower_case_entries sampleEnv sampleHandler "d" "out"
           ["t1"; "t3"] ["t3"] ["T1"; "t2"; "t3"] emptyState).
  - by repeat constructor.
  - by repeat constructor.
  - by repeat constructor.
  - vm_compute. reflexivity.
Defined.

(** ** One filter for both exports *)

Section SharedFilter.
Context (e : environment) (h : tidbHandler) (db dir : string).


End SharedFilter.

